(** * A shallow embedding of the multithreaded download manager

    The development follows [src/core.py]: the [DownloadManager] object is a
    record, its pure methods are functions, its fallible methods return a
    [result], and the code that runs in several threads ([_download_chunk]
    and the monitor loop of [start]) is a small-step machine driven by an
    explicit schedule. *)

From Stdlib Require Import ZArith QArith Qround Lia Lqa List String Ascii.
From Stdlib Require Import DecimalString DecimalZ DecimalFacts.
From stdpp Require Import gmap strings list.

Open Scope Z_scope.

(** ** Exceptions and results *)

(** The exceptions the core can raise.  [Exception msg] is [raise
    Exception("msg")]; [Wrapped prefix e] is [raise Exception(f"prefix{e}")],
    the message being the prefix followed by [str(e)]; [ValueError] carries
    its message.  The others come from the interpreter and the libraries:
    [RequestError] is any exception of [requests] (connection failure,
    timeout, [raise_for_status]), [FileNotFoundError] is what [open(_, "rb")]
    raises on a missing file, [ZeroDivisionError] what [//] raises on a zero
    divisor, [IndexError] what a list store raises out of range and
    [AttributeError] what reading a missing attribute raises. *)
Inductive exn : Type :=
| Exception (msg : string)
| Wrapped (prefix : string) (cause : exn)
| ValueError (msg : string)
| RequestError (msg : string)
| FileNotFoundError (path : string)
| ZeroDivisionError
| IndexError
| AttributeError (attribute : string).

Inductive result (A : Type) : Type :=
| Ok (a : A)
| Raise (e : exn).

Arguments Ok {A} a.
Arguments Raise {A} e.

(** The errors of the specification that [start] raises as plain
    [Exception]s, under the specification's names. *)
Definition UnsupportedServerError : exn :=
  Exception "Server does not support Range requests.".

Definition SegmentFailureError : exn :=
  Exception "One or more threads failed to download properly.".

(** ** Strings as the code uses them *)

Module Py.

(** Characters [str.strip()] removes (the ASCII ones). *)
Definition is_space (c : ascii) : bool :=
  let n := nat_of_ascii c in
  ((9 <=? n)%nat && (n <=? 13)%nat) || ((28 <=? n)%nat && (n <=? 32)%nat).

Fixpoint lstrip (s : string) : string :=
  match s with
  | EmptyString => EmptyString
  | String c s' => if is_space c then lstrip s' else s
  end.

Definition reverse (s : string) : string :=
  string_of_list_ascii (rev (list_ascii_of_string s)).

(** [s.strip()] *)
Definition strip (s : string) : string :=
  reverse (lstrip (reverse (lstrip s))).

(** [s.split(sep)] for a one-character separator: never empty. *)
Fixpoint split (sep : ascii) (s : string) : list string :=
  match s with
  | EmptyString => [EmptyString]
  | String c s' =>
      if Ascii.eqb c sep then EmptyString :: split sep s'
      else match split sep s' with
           | w :: ws => String c w :: ws
           | [] => [String c EmptyString]
           end
  end.

(** [l[-1]] on a list of strings known to be non-empty. *)
Definition last_item (l : list string) : string := List.last l EmptyString.

(** [s.lower()], on ASCII letters. *)
Definition lower_char (c : ascii) : ascii :=
  let n := nat_of_ascii c in
  if (65 <=? n)%nat && (n <=? 90)%nat then ascii_of_nat (n + 32) else c.

Fixpoint lower (s : string) : string :=
  match s with
  | EmptyString => EmptyString
  | String c s' => String (lower_char c) (lower s')
  end.

(** [str(n)] for an [int]. *)
Definition str (n : Z) : string := NilZero.string_of_int (Z.to_int n).

(** [range(n)]: empty when [n <= 0]. *)
Definition range (n : Z) : list Z := seqZ 0 n.

End Py.

(** ** The [DownloadManager] object

    The fields are those the methods of the core read or write.  The
    attributes [percent_complete], [current_speed], [is_running],
    [is_finished], [metadata], [temp_path] and [threads] are initialised by
    [__init__] and never touched again, and are left out.  [thread_status]
    is the list [start] installs (the empty dictionary of [__init__] is the
    empty list here).  The two events are their flags.  A callback is either
    attached or [None]; what it is called with is recorded in the event log
    of the world. *)
Record DownloadManager : Type := mkDM {
  url : string;
  output_path : string;
  num_threads : Z;
  chunk_size : Z;
  total_size : Z;
  accept_ranges : bool;
  file_name : string;
  thread_status : list bool;
  stop_event : bool;
  pause_event : bool;
  downloaded_total : Z;
  progress_callback : bool;
  status_callback : bool
}.

(** [DownloadManager.__init__], for [int] thread count and block size
    (on which [int(_)] is the identity). *)
Definition init (url0 output_path0 : string) (num_threads0 chunk_size0 : Z)
  : DownloadManager :=
  {| url := Py.strip url0;
     output_path := output_path0;
     num_threads := Z.max 1 num_threads0;
     chunk_size := Z.max 1024 chunk_size0;
     total_size := 0;
     accept_ranges := false;
     file_name := Py.last_item (Py.split "/" url0);
     thread_status := [];
     stop_event := false;
     pause_event := false;
     downloaded_total := 0;
     progress_callback := false;
     status_callback := false |}.

(** Field updates. *)
Definition set_metadata (size : Z) (ranges : bool) (dm : DownloadManager) :=
  mkDM (url dm) (output_path dm) (num_threads dm) (chunk_size dm)
       size ranges (file_name dm) (thread_status dm)
       (stop_event dm) (pause_event dm) (downloaded_total dm)
       (progress_callback dm) (status_callback dm).

Definition set_thread_status (st : list bool) (dm : DownloadManager) :=
  mkDM (url dm) (output_path dm) (num_threads dm) (chunk_size dm)
       (total_size dm) (accept_ranges dm) (file_name dm) st
       (stop_event dm) (pause_event dm) (downloaded_total dm)
       (progress_callback dm) (status_callback dm).

Definition set_stop_event (b : bool) (dm : DownloadManager) :=
  mkDM (url dm) (output_path dm) (num_threads dm) (chunk_size dm)
       (total_size dm) (accept_ranges dm) (file_name dm) (thread_status dm)
       b (pause_event dm) (downloaded_total dm)
       (progress_callback dm) (status_callback dm).

Definition set_pause_event (b : bool) (dm : DownloadManager) :=
  mkDM (url dm) (output_path dm) (num_threads dm) (chunk_size dm)
       (total_size dm) (accept_ranges dm) (file_name dm) (thread_status dm)
       (stop_event dm) b (downloaded_total dm)
       (progress_callback dm) (status_callback dm).

Definition set_downloaded_total (n : Z) (dm : DownloadManager) :=
  mkDM (url dm) (output_path dm) (num_threads dm) (chunk_size dm)
       (total_size dm) (accept_ranges dm) (file_name dm) (thread_status dm)
       (stop_event dm) (pause_event dm) n
       (progress_callback dm) (status_callback dm).

(** The caller attaches its callbacks after construction
    ([dm.progress_callback = ...], [dm.status_callback = ...]). *)
Definition attach_callbacks (progress status : bool) (dm : DownloadManager) :=
  mkDM (url dm) (output_path dm) (num_threads dm) (chunk_size dm)
       (total_size dm) (accept_ranges dm) (file_name dm) (thread_status dm)
       (stop_event dm) (pause_event dm) (downloaded_total dm)
       progress status.

(** ** The range planner *)

(** A byte range [(start, end)], both ends inclusive. *)
Definition byte_range : Type := (Z * Z)%type.

(** The body of the [for] loop of [split_ranges] at index [i]. *)
Definition nth_range (total n chunk i : Z) : byte_range :=
  let start := i * chunk in
  (start, if i <? n - 1 then start + chunk - 1 else total - 1).

(** [DownloadManager.split_ranges].  The only statement that can raise is
    the integer division, when [num_threads] is 0. *)
Definition split_ranges (dm : DownloadManager) : result (list byte_range) :=
  if negb (accept_ranges dm) || (num_threads dm =? 1) then
    Ok [(0, total_size dm - 1)]
  else if num_threads dm =? 0 then Raise ZeroDivisionError
  else
    let chunk := total_size dm `div` num_threads dm in
    Ok (nth_range (total_size dm) (num_threads dm) chunk
          <$> Py.range (num_threads dm)).

(** What the planner's output is expected to satisfy. *)

(** Each range starts right after the one before it ends. *)
Definition contiguous (rs : list byte_range) : Prop :=
  ∀ (i : nat) a b, rs !! i = Some a → rs !! S i = Some b → b.1 = a.2 + 1.

(** An earlier range ends before a later one starts. *)
Definition non_overlapping (rs : list byte_range) : Prop :=
  ∀ (i j : nat) a b, (i < j)%nat → rs !! i = Some a → rs !! j = Some b →
                     a.2 < b.1.

(** The offsets inside some range are exactly those between [lo] and [hi]. *)
Definition covers (rs : list byte_range) (lo hi : Z) : Prop :=
  ∀ x, lo ≤ x ≤ hi ↔ ∃ r, r ∈ rs ∧ r.1 ≤ x ≤ r.2.

(** Number of offsets in a range. *)
Definition range_length (r : byte_range) : Z := r.2 - r.1 + 1.

(** Every range but the last has [len] offsets. *)
Definition inner_lengths (rs : list byte_range) (len : Z) : Prop :=
  ∀ (i : nat) r, (S i < length rs)%nat → rs !! i = Some r → range_length r = len.

(** The last range ends at [hi]. *)
Definition ends_at (rs : list byte_range) (hi : Z) : Prop :=
  ∃ r, last rs = Some r ∧ r.2 = hi.

(** ** The world outside the object *)

Definition block : Type := list Byte.byte.

(** What the callbacks are called with and what is printed.
    [StatusError e] is the call [status_callback("error", str(e))] and
    [PrintError prefix e] the call [print(f"prefix{e}")]. *)
Inductive event : Type :=
| Status (status : string)
| StatusError (e : exn)
| Progress (percent : Q)
| Print (line : string)
| PrintError (prefix : string) (e : exn).

(** The file system (path to content) and the events so far, oldest
    first. *)
Record world : Type := mkWorld {
  fs : gmap string (list Byte.byte);
  log : list event
}.

Definition emit (ev : event) (w : world) : world :=
  mkWorld (fs w) (log w ++ [ev]).

Definition set_fs (m : gmap string (list Byte.byte)) (w : world) : world :=
  mkWorld m (log w).

(** [if self.status_callback: self.status_callback(status)] *)
Definition notify (dm : DownloadManager) (status : string) (w : world) : world :=
  if status_callback dm then emit (Status status) w else w.

(** ** The server *)

(** The headers the probe reads.  A [Content-Length] that is present is
    taken to be a decimal integer. *)
Record http_response : Type := mkResponse {
  status_code : Z;
  content_length : option Z;
  accept_ranges_header : option string
}.

(** The answer to a range request: the status and what [iter_content]
    yields, each [next] being a block or an exception. *)
Record segment_response : Type := mkSegment {
  segment_status : Z;
  segment_stream : list (result block)
}.

Record network : Type := mkNetwork {
  net_head : result http_response;
  net_get : result http_response;
  net_get_range : Z → Z → result segment_response
}.

(** [response.ok]: no 4xx or 5xx status. *)
Definition response_ok (r : http_response) : bool :=
  negb ((400 <=? status_code r) && (status_code r <? 600)).

(** [DownloadManager.get_file_info].  The dictionary it returns is dropped
    by its only caller; the result here is the object with the metadata
    stored. *)
Definition get_file_info (net : network) (dm : DownloadManager)
  : result DownloadManager :=
  let body : result DownloadManager :=
    match net_head net with
    | Raise e => Raise e
    | Ok response =>
        let fetched :=
          if negb (response_ok response)
             || negb (bool_decide (is_Some (content_length response)))
          then
            match net_get net with
            | Raise e => Raise e
            | Ok response' =>
                if response_ok response' then Ok response'
                else Raise (RequestError "raise_for_status")
            end
          else Ok response in
        match fetched with
        | Raise e => Raise e
        | Ok response =>
            match content_length response with
            | None =>
                Raise (Exception
                  ("Server did not provide Content-Length for URL: " +:+ url dm))
            | Some total =>
                let ranges :=
                  bool_decide
                    (Py.lower (default EmptyString (accept_ranges_header response))
                     = "bytes") in
                Ok (set_metadata total ranges dm)
            end
        end
    end in
  match body with
  | Ok dm' => Ok dm'
  | Raise e => Raise (Wrapped "Failed to fetch file metadata: " e)
  end.

(** ** Progress

    Python evaluates the percent in binary floating point; here the same
    expressions are evaluated over the rationals, so a value stands for
    the real number the code approximates. *)

(** Python's [min(a, b)]: [b] when [b < a], else [a]. *)
Definition py_min (a b : Q) : Q := if Qlt_le_dec b a then b else a.

(** [(downloaded / total) * 100] in exact arithmetic. *)
Definition ratio_percent (downloaded total : Z) : Q :=
  (inject_Z downloaded / inject_Z total * 100)%Q.

(** Rounding to the nearest integer, ties to the even one. *)
Definition round_half_even (q : Q) : Z :=
  let f := Qfloor q in
  let r := (q - inject_Z f)%Q in
  match (r ?= 1 # 2)%Q with
  | Lt => f
  | Gt => f + 1
  | Eq => if Z.even f then f else f + 1
  end.

(** [round(q, 2)] *)
Definition round2 (q : Q) : Q := (inject_Z (round_half_even (q * 100)) / 100)%Q.

(** The value the monitor loop of [start] hands to the callback. *)
Definition monitor_percent (downloaded total : Z) : Q :=
  round2 (py_min 100 (ratio_percent downloaded total)).

(** The value [_download_chunk] hands to its callback. *)
Definition chunk_percent (downloaded total : Z) : Q :=
  py_min (ratio_percent downloaded total) 100.

(** ** Segment stores *)

(** [f"{self.file_name}.part{i}"] *)
Definition part_file (dm : DownloadManager) (i : Z) : string :=
  file_name dm +:+ ".part" +:+ Py.str i.

(** ** One fetcher: [_download_chunk] as a small-step machine

    Every step holds at most one access to the state shared between the
    threads.  The program points are the lines of the method. *)

Inductive outcome : Type :=
| Succeeded
| Returned
| Died (e : exn).

Inductive fetcher_pc : Type :=
| FRequest (first last : Z)
| FOpen (stream : list (result block))
| FIter (stream : list (result block))
| FStopCheck (b : block) (stream : list (result block))
| FPauseCheck (b : block) (stream : list (result block))
| FWrite (b : block) (stream : list (result block))
| FLoad (b : block) (stream : list (result block))
| FStore (loaded : Z) (b : block) (stream : list (result block))
| FReport (stream : list (result block))
| FDead (o : outcome).

(** A thread running [_download_chunk(thread_index, start, end,
    progress_callback)]. *)
Record fetcher : Type := mkFetcher {
  thread_index : nat;
  chunk_callback : bool;
  pc : fetcher_pc
}.

Definition is_alive (f : fetcher) : bool :=
  match pc f with FDead _ => false | _ => true end.

(** [self.thread_status[i] = b]; a list store out of range raises. *)
Definition store_status (i : nat) (b : bool) (dm : DownloadManager)
  : result DownloadManager :=
  if bool_decide (i < length (thread_status dm))%nat
  then Ok (set_thread_status (<[i := b]> (thread_status dm)) dm)
  else Raise IndexError.

(** The [except] clause of [_download_chunk]. *)
Definition chunk_failed (i : nat) (e : exn) (dm : DownloadManager)
  : fetcher_pc * DownloadManager :=
  match store_status i false dm with
  | Ok dm' =>
      (FDead (Died (Wrapped ("Thread " +:+ Py.str (Z.of_nat i) +:+ " failed: ") e)),
       dm')
  | Raise e' => (FDead (Died e'), dm)
  end.

(** The statement after the [try] of [_download_chunk]. *)
Definition chunk_finished (i : nat) (dm : DownloadManager)
  : fetcher_pc * DownloadManager :=
  match store_status i true dm with
  | Ok dm' => (FDead Succeeded, dm')
  | Raise e => (FDead (Died e), dm)
  end.

Definition fetcher_step (net : network) (f : fetcher)
    (dm : DownloadManager) (w : world) : fetcher * DownloadManager * world :=
  let i := thread_index f in
  let continue (p : fetcher_pc) (dm' : DownloadManager) (w' : world) :=
    (mkFetcher i (chunk_callback f) p, dm', w') in
  let name := part_file dm (Z.of_nat i) in
  match pc f with
  | FRequest first last =>
      match net_get_range net first last with
      | Raise e => let '(p, dm') := chunk_failed i e dm in continue p dm' w
      | Ok response =>
          if bool_decide (segment_status response = 200)
             || bool_decide (segment_status response = 206)
          then continue (FOpen (segment_stream response)) dm w
          else
            let e := Exception
              ("Unexpected status code " +:+ Py.str (segment_status response)
               +:+ " for thread " +:+ Py.str (Z.of_nat i)) in
            let '(p, dm') := chunk_failed i e dm in continue p dm' w
      end
  | FOpen stream =>
      continue (FIter stream) dm (set_fs (<[name := []]> (fs w)) w)
  | FIter [] =>
      let '(p, dm') := chunk_finished i dm in continue p dm' w
  | FIter (Raise e :: _) =>
      let '(p, dm') := chunk_failed i e dm in continue p dm' w
  | FIter (Ok b :: stream) => continue (FStopCheck b stream) dm w
  | FStopCheck b stream =>
      if stop_event dm then continue (FDead Returned) dm w
      else continue (FPauseCheck b stream) dm w
  | FPauseCheck b stream =>
      if pause_event dm then continue (FPauseCheck b stream) dm w
      else continue (FWrite b stream) dm w
  | FWrite b stream =>
      match b with
      | [] => continue (FIter stream) dm w
      | _ =>
          let content := default [] (fs w !! name) in
          continue (FLoad b stream) dm
                   (set_fs (<[name := content ++ b]> (fs w)) w)
      end
  | FLoad b stream => continue (FStore (downloaded_total dm) b stream) dm w
  | FStore loaded b stream =>
      continue (FReport stream)
               (set_downloaded_total (loaded + Z.of_nat (length b)) dm) w
  | FReport stream =>
      if (0 <? total_size dm) && chunk_callback f
      then continue (FIter stream) dm
             (emit (Progress (chunk_percent (downloaded_total dm) (total_size dm))) w)
      else continue (FIter stream) dm w
  | FDead o => continue (FDead o) dm w
  end.

(** ** Assembly: [_combine_chunks] *)

(** [pf.read(size)] on what is left of the file: all of it for a negative
    size, else at most [size] bytes. *)
Definition read (size : Z) (rest : list Byte.byte) : list Byte.byte :=
  if size <? 0 then rest else take (Z.to_nat size) rest.

(** The [while True] loop that copies one segment store; [fuel] bounds the
    number of reads. *)
Fixpoint copy_loop (fuel : nat) (size : Z) (rest out : list Byte.byte)
  : list Byte.byte :=
  match fuel with
  | O => out
  | S fuel' =>
      match read size rest with
      | [] => out
      | data => copy_loop fuel' size (drop (length data) rest) (out ++ data)
      end
  end.

(** The [for] loop of [_combine_chunks] over the indices still to do. *)
Fixpoint combine_loop (dm : DownloadManager) (indices : list Z)
    (files : gmap string (list Byte.byte))
  : result unit * gmap string (list Byte.byte) :=
  match indices with
  | [] => (Ok tt, files)
  | i :: indices' =>
      match files !! part_file dm i with
      | None => (Raise (FileNotFoundError (part_file dm i)), files)
      | Some content =>
          let out := default [] (files !! file_name dm) in
          let out' := copy_loop (S (length content)) (chunk_size dm) content out in
          combine_loop dm indices'
            (delete (part_file dm i) (<[file_name dm := out']> files))
      end
  end.

Definition combine_chunks (dm : DownloadManager) (w : world)
  : result unit * world :=
  let opened := <[file_name dm := []]> (fs w) in
  match combine_loop dm (Py.range (num_threads dm)) opened with
  | (Ok _, files) =>
      (Ok tt,
       if status_callback dm then emit (Status "completed") (set_fs files w)
       else emit (Print ("[+] File merge completed successfully → " +:+ file_name dm))
                 (set_fs files w))
  | (Raise e, files) =>
      (Raise e,
       if status_callback dm then emit (StatusError e) (set_fs files w)
       else emit (PrintError "[!] Error combining chunks: " e) (set_fs files w))
  end.

(** ** The coordinator: [start] *)

Inductive coord_pc : Type :=
| MAlive
| MStop
| MPause
| MPauseWait
| MProgress
| MJoin
| MFinish
| MDone (r : result unit).

Record machine : Type := mkMachine {
  manager : DownloadManager;
  outside : world;
  fetchers : list fetcher;
  coord : coord_pc
}.

(** The [except] clause of [start]. *)
Definition start_failed (dm : DownloadManager) (e : exn) (w : world) : world :=
  if status_callback dm then emit (StatusError e) w
  else emit (PrintError "[!] Download error: " e) w.

(** Steps 5 and 6 of [start], after the monitor loop, with the [except]
    clause around them. *)
Definition finish (dm : DownloadManager) (w : world) : result unit * world :=
  let '(r, w') :=
    if forallb id (thread_status dm) then
      match combine_chunks dm w with
      | (Ok _, w1) =>
          if status_callback dm then (Ok tt, emit (Status "completed") w1)
          else (Raise (AttributeError "filename"), w1)
      | (Raise e, w1) => (Raise e, w1)
      end
    else (Raise SegmentFailureError, w)
  in
  match r with
  | Ok _ => (Ok tt, w')
  | Raise e => (Raise e, start_failed dm e w')
  end.

(** The four assignments that open step 1 of [start]. *)
Definition reset (dm : DownloadManager) : DownloadManager :=
  let dm := set_stop_event false dm in
  let dm := set_pause_event false dm in
  let dm := set_downloaded_total 0 dm in
  set_thread_status (replicate (Z.to_nat (num_threads dm)) false) dm.

(** [start] up to the monitor loop: steps 1 to 3. *)
Definition start (net : network) (dm : DownloadManager) (w : world) : machine :=
  let w := emit (Print (file_name dm)) w in
  if bool_decide (file_name dm = EmptyString) then
    mkMachine dm w []
      (MDone (Raise (ValueError ("Output filename invalid: " +:+ file_name dm))))
  else
    let dm := reset dm in
    let w := notify dm "starting" w in
    let failed (dm : DownloadManager) (e : exn) :=
      mkMachine dm (start_failed dm e w) [] (MDone (Raise e)) in
    match get_file_info net dm with
    | Raise e => failed dm e
    | Ok dm =>
        if negb (accept_ranges dm) then
          failed dm UnsupportedServerError
        else
          match split_ranges dm with
          | Raise e => failed dm e
          | Ok ranges =>
              mkMachine dm (notify dm "downloading" w)
                (imap (λ i r, mkFetcher i false (FRequest r.1 r.2)) ranges)
                MAlive
          end
    end.

(** One step of the monitor loop and of what follows it. *)
Definition coord_step (m : machine) : machine :=
  let dm := manager m in
  let w := outside m in
  let goto (p : coord_pc) (w' : world) := mkMachine dm w' (fetchers m) p in
  match coord m with
  | MAlive => if existsb is_alive (fetchers m) then goto MStop w else goto MJoin w
  | MStop =>
      if stop_event dm then goto (MDone (Ok tt)) (notify dm "stopped" w)
      else goto MPause w
  | MPause =>
      if pause_event dm then goto MPauseWait (notify dm "paused" w)
      else goto MProgress w
  | MPauseWait =>
      if pause_event dm && negb (stop_event dm) then goto MPauseWait w
      else goto MProgress (notify dm "resumed" w)
  | MProgress =>
      if progress_callback dm && (0 <? total_size dm) then
        goto MAlive
          (emit (Progress (monitor_percent (downloaded_total dm) (total_size dm))) w)
      else goto MAlive w
  | MJoin => if existsb is_alive (fetchers m) then goto MJoin w else goto MFinish w
  | MFinish => let '(r, w') := finish dm w in goto (MDone r) w'
  | MDone r => m
  end.

(** ** The run: threads and callers interleaved *)

(** What can happen next: a thread takes a step, or the caller sets or
    clears a flag ([stop_event.set()], [pause_event.set()],
    [pause_event.clear()]). *)
Inductive action : Type :=
| RunFetcher (i : nat)
| RunCoordinator
| SetStop
| SetPause
| ClearPause.

Definition step (net : network) (a : action) (m : machine) : machine :=
  match a with
  | RunFetcher i =>
      match fetchers m !! i with
      | None => m
      | Some f =>
          let '(f', dm', w') := fetcher_step net f (manager m) (outside m) in
          mkMachine dm' w' (<[i := f']> (fetchers m)) (coord m)
      end
  | RunCoordinator => coord_step m
  | SetStop => mkMachine (set_stop_event true (manager m)) (outside m) (fetchers m) (coord m)
  | SetPause => mkMachine (set_pause_event true (manager m)) (outside m) (fetchers m) (coord m)
  | ClearPause => mkMachine (set_pause_event false (manager m)) (outside m) (fetchers m) (coord m)
  end.

Definition run (net : network) (schedule : list action) (m : machine) : machine :=
  foldl (λ m a, step net a m) m schedule.

(** The content of the segment store of fetcher [i]. *)
Definition written (m : machine) (i : nat) : list Byte.byte :=
  default [] (fs (outside m) !! part_file (manager m) (Z.of_nat i)).


(** The percent values handed to the progress callback so far. *)
Definition percents (w : world) : list Q :=
  omap (λ ev, match ev with Progress p => Some p | _ => None end) (log w).


(** The indices whose entry in [thread_status] is [False]. *)
Definition failed_indices (st : list bool) : list nat :=
  omap (λ '(i, b), if b : bool then None else Some i) (zip (seq 0 (length st)) st).

(** ** A server and two runs used as examples *)

Module Scenario.

Import Byte.

Definition b1 : block := [x01; x02].
Definition b2 : block := [x03; x04].

(** A server for a 4-byte resource that accepts range requests and
    answers each of them with [stream]. *)
Definition server (stream : list (result block)) : network :=
  mkNetwork (Ok (mkResponse 200 (Some 4) (Some "bytes"%string)))
            (Raise (RequestError "unused"))
            (λ _ _, Ok (mkSegment 206 stream)).

(** The object the caller builds, with both callbacks attached. *)
Definition manager (workers : Z) : DownloadManager :=
  attach_callbacks true true
    (init "http://host/file.bin" "out/result.bin" workers 8192).

Definition nothing : world := mkWorld ∅ [].

(** One fetcher takes [n] steps in a row. *)
Definition steps (i n : nat) : list action := replicate n (RunFetcher i).

End Scenario.

(** ** The caller of the repository: [gui.py]

    Of the window only what reaches the core is kept: the text of the URL
    field, the object [DownloadWorker] builds from it, and the three
    buttons, which are the actions [SetPause], [ClearPause] and [SetStop]
    of a run. *)

Module Gui.

(** [url.split("/")[-1] or "download.bin"] in [_on_start]. *)
Definition filename (url0 : string) : string :=
  let name := Py.last_item (Py.split "/" url0) in
  if bool_decide (name = EmptyString) then "download.bin"%string else name.

(** [DownloadWorker.__init__]: the manager with four threads, the default
    block size and both callbacks attached. *)
Definition worker (url0 name : string) : DownloadManager :=
  attach_callbacks true true (init url0 name 4 8192).

(** [DownloadGUI._on_start]: nothing is built for an empty URL field. *)
Definition on_start (text : string) : option DownloadManager :=
  let url0 := Py.strip text in
  if bool_decide (url0 = EmptyString) then None
  else Some (worker url0 (filename url0)).

End Gui.

(** ** One fetcher on its own *)

(** [n] steps of a fetcher with no other thread in between. *)
Fixpoint fetcher_steps (net : network) (n : nat)
    (s : fetcher * DownloadManager * world) : fetcher * DownloadManager * world :=
  match n with
  | O => s
  | S n' => let '(f, dm, w) := s in fetcher_steps net n' (fetcher_step net f dm w)
  end.

(** The characters of a string. *)
Definition chars (s : string) : list ascii := list_ascii_of_string s.

(** A fetcher that has run [_download_chunk] to its last line. *)
Definition succeeded (f : fetcher) : bool :=
  match pc f with FDead Succeeded => true | _ => false end.

(** The status list mirrors the fetchers: fetcher [i] sits at index [i],
    its entry says whether it has succeeded, no fetcher has died on the
    status store, and no entry without a fetcher is [True]. *)
Definition status_mirrors_fetchers (m : machine) : Prop :=
  (∀ (i : nat) f, fetchers m !! i = Some f →
      thread_index f = i ∧
      thread_status (manager m) !! i = Some (succeeded f) ∧
      pc f ≠ FDead (Died IndexError)) ∧
  (∀ i : nat, fetchers m !! i = None → thread_status (manager m) !! i ≠ Some true).

(** The program points of the block loop of [_download_chunk]. *)
Definition in_block_loop (p : fetcher_pc) : bool :=
  match p with
  | FIter _ | FStopCheck _ _ | FPauseCheck _ _ | FWrite _ _
  | FLoad _ _ | FStore _ _ _ | FReport _ => true
  | FRequest _ _ | FOpen _ | FDead _ => false
  end.

(** The block a fetcher has taken past its stop test and not yet written. *)
Definition in_hand (p : fetcher_pc) : block :=
  match p with
  | FPauseCheck b _ | FWrite b _ => b
  | _ => []
  end.

(** ** A server that honours range requests *)

(** The bytes of [data] at the offsets of a range, both ends included. *)
Definition slice (data : list Byte.byte) (r : byte_range) : list Byte.byte :=
  take (Z.to_nat (r.2 - r.1 + 1)) (drop (Z.to_nat r.1) data).

(** The server holds [data]: the header-only request succeeds, gives the
    size and advertises byte ranges, and every range request is answered
    with status 206 and exactly the bytes asked for, in blocks. *)
Definition serves (net : network) (data : list Byte.byte) : Prop :=
  (∃ r h, net_head net = Ok r ∧ response_ok r = true ∧
          content_length r = Some (Z.of_nat (length data)) ∧
          accept_ranges_header r = Some h ∧ Py.lower h = "bytes"%string) ∧
  ∀ first last, ∃ blocks,
    net_get_range net first last = Ok (mkSegment 206 (Ok <$> blocks)) ∧
    concat blocks = slice data (first, last).

(** Ranges that follow one another from [lo] up to [hi]. *)
Fixpoint chained (lo : Z) (rs : list byte_range) (hi : Z) : Prop :=
  match rs with
  | [] => lo = hi + 1
  | r :: rs' => r.1 = lo ∧ lo ≤ r.2 + 1 ∧ chained (r.2 + 1) rs' hi
  end.

(** The schedule in which the fetchers run one after another, fetcher [i]
    for [counts !! i] steps, and the coordinator then takes three steps. *)
Definition one_after_another (counts : list nat) : list action :=
  concat (imap Scenario.steps counts) ++ replicate 3 RunCoordinator.

(** ** The destination the caller asked for *)

Definition set_output_path (path : string) (dm : DownloadManager) :=
  mkDM (url dm) path (num_threads dm) (chunk_size dm)
       (total_size dm) (accept_ranges dm) (file_name dm) (thread_status dm)
       (stop_event dm) (pause_event dm) (downloaded_total dm)
       (progress_callback dm) (status_callback dm).

(** The same machine around an object asked for another destination. *)
Definition with_output_path (path : string) (m : machine) : machine :=
  mkMachine (set_output_path path (manager m)) (outside m) (fetchers m) (coord m).

(** ** The counter against the bytes on disk *)

(** The bytes a fetcher has written and not yet added to the counter. *)
Definition uncounted (f : fetcher) : nat :=
  match pc f with
  | FLoad b _ | FStore _ b _ => length b
  | _ => 0%nat
  end.

Definition pending (m : machine) : nat := sum_list_with uncounted (fetchers m).

(** The bytes in the segment stores of the fetchers. *)
Definition stored (m : machine) : nat :=
  sum_list_with (λ i, length (written m i)) (seq 0 (length (fetchers m))).

(** The coordinator has not yet returned or raised. *)
Definition coordinating (p : coord_pc) : bool :=
  match p with MDone _ => false | _ => true end.

(** The counter, and every value of it a fetcher has read and is about to
    add to, is at most the bytes stored and already counted; a fetcher that
    has not opened its store yet has an empty one. *)
Definition counter_behind (m : machine) : Prop :=
  let counted := Z.of_nat (stored m) - Z.of_nat (pending m) in
  0 ≤ downloaded_total (manager m) ≤ counted ∧
  ∀ (i : nat) f, fetchers m !! i = Some f →
    thread_index f = i ∧
    match pc f with
    | FStore loaded _ _ => 0 ≤ loaded ≤ counted
    | FRequest _ _ | FOpen _ => written m i = []
    | _ => True
    end.
(** ** Properties of the planner *)

Section Planner.

Variables total n : Z.
Hypothesis Htotal : 0 < total.
Hypothesis Hn : 1 ≤ n.

Let chunk := total `div` n.

Lemma chunk_bounds : 0 ≤ chunk ∧ chunk * n ≤ total < chunk * n + n.
Proof.
  unfold chunk.
  pose proof (Z.div_mod total n ltac:(lia)) as Hdm.
  pose proof (Z.mod_pos_bound total n ltac:(lia)) as Hmod.
  assert (0 ≤ total `div` n) by (apply Z.div_pos; lia).
  nia.
Qed.

Lemma lookup_ranges (i : nat) r :
  (nth_range total n chunk <$> Py.range n) !! i = Some r ↔
  (Z.of_nat i < n ∧ r = nth_range total n chunk (Z.of_nat i)).
Proof.
  unfold Py.range. rewrite list_lookup_fmap. split.
  - intros H. destruct (seqZ 0 n !! i) as [k|] eqn:Hk; simplify_eq/=.
    apply lookup_seqZ in Hk as [-> Hi]. split; [lia|]. f_equal; lia.
  - intros [Hi ->]. rewrite (lookup_seqZ_lt 0 n i) by lia.
    simpl. do 2 f_equal; lia.
Qed.

Lemma ranges_contiguous :
  contiguous (nth_range total n chunk <$> Py.range n).
Proof.
  intros i a b Ha Hb.
  apply lookup_ranges in Ha as [Hi ->]. apply lookup_ranges in Hb as [Hj ->].
  unfold nth_range; simpl.
  destruct (Z.ltb_spec (Z.of_nat i) (n - 1)); lia.
Qed.

Lemma ranges_non_overlapping :
  non_overlapping (nth_range total n chunk <$> Py.range n).
Proof.
  intros i j a b Hij Ha Hb.
  apply lookup_ranges in Ha as [Hi ->]. apply lookup_ranges in Hb as [Hj ->].
  pose proof chunk_bounds as [Hc _].
  unfold nth_range; simpl.
  destruct (Z.ltb_spec (Z.of_nat i) (n - 1)); [nia | lia].
Qed.

Lemma ranges_cover :
  covers (nth_range total n chunk <$> Py.range n) 0 (total - 1).
Proof.
  pose proof chunk_bounds as (Hc & Hlo & Hhi).
  intros x. split.
  - intros Hx.
    destruct (Z_lt_le_dec x ((n - 1) * chunk)) as [Hlt | Hge].
    + (* an inner range: the one of index x div chunk *)
      assert (0 < chunk) by nia.
      pose proof (Z.div_mod x chunk ltac:(lia)) as Hdm.
      pose proof (Z.mod_pos_bound x chunk ltac:(lia)) as Hmod.
      assert (0 ≤ x `div` chunk) by (apply Z.div_pos; lia).
      assert (x `div` chunk < n - 1) by nia.
      exists (nth_range total n chunk (x `div` chunk)). split.
      * apply list_elem_of_lookup. exists (Z.to_nat (x `div` chunk)).
        apply lookup_ranges. rewrite Z2Nat.id by lia. split; [lia | done].
      * unfold nth_range; simpl.
        destruct (Z.ltb_spec (x `div` chunk) (n - 1)); nia.
    + (* the last range *)
      exists (nth_range total n chunk (n - 1)). split.
      * apply list_elem_of_lookup. exists (Z.to_nat (n - 1)).
        apply lookup_ranges. rewrite Z2Nat.id by lia. split; [lia | done].
      * unfold nth_range; simpl.
        destruct (Z.ltb_spec (n - 1) (n - 1)); lia.
  - intros (r & Hr & Hx).
    apply list_elem_of_lookup in Hr as [i Hi].
    apply lookup_ranges in Hi as [Hi ->].
    unfold nth_range in Hx; simpl in Hx.
    destruct (Z.ltb_spec (Z.of_nat i) (n - 1)); nia.
Qed.

Lemma ranges_length :
  length (nth_range total n chunk <$> Py.range n) = Z.to_nat n.
Proof. unfold Py.range. by rewrite length_fmap, length_seqZ. Qed.

End Planner.

Lemma single_range_partition (total : Z) :
  contiguous [(0, total - 1)] ∧ non_overlapping [(0, total - 1)] ∧
  covers [(0, total - 1)] 0 (total - 1).
Proof.
  split; [|split].
  - intros i a b _ Hb. destruct i; discriminate.
  - intros i j a b Hij _ Hb. destruct j; [lia | discriminate].
  - intros x. split.
    + intros Hx. exists (0, total - 1). split; [apply list_elem_of_here | done].
    + intros (r & Hr & Hx). apply list_elem_of_singleton in Hr as ->. done.
Qed.

(** C1.  For a positive total size and at least one worker, whatever the
    range-support flag, [split_ranges] returns ranges that are contiguous,
    do not overlap and cover exactly the offsets 0 to [total_size - 1]; on
    the single-range path the result is the one range [(0, total_size - 1)],
    and on the multi-range path there are [num_threads] ranges, every one
    but the last has [total_size // num_threads] offsets and the last one
    ends at [total_size - 1]. *)
Theorem split_ranges_partition (dm : DownloadManager) :
  0 < total_size dm → 1 ≤ num_threads dm →
  ∃ rs, split_ranges dm = Ok rs ∧
        contiguous rs ∧ non_overlapping rs ∧
        covers rs 0 (total_size dm - 1) ∧
        if negb (accept_ranges dm) || (num_threads dm =? 1)
        then rs = [(0, total_size dm - 1)]
        else length rs = Z.to_nat (num_threads dm) ∧
             inner_lengths rs (total_size dm `div` num_threads dm) ∧
             ends_at rs (total_size dm - 1).
Proof.
  intros Htotal Hn. unfold split_ranges.
  destruct (negb (accept_ranges dm) || (num_threads dm =? 1)) eqn:Hsingle.
  - exists [(0, total_size dm - 1)].
    destruct (single_range_partition (total_size dm)) as (Hc & Ho & Hu).
    done.
  - destruct (Z.eqb_spec (num_threads dm) 0) as [Hz | _]; [lia|].
    eexists. split; [reflexivity|].
    split; [by apply ranges_contiguous|].
    split; [by apply ranges_non_overlapping|].
    split; [by apply ranges_cover|].
    split; [apply ranges_length|]. split.
    + intros i r Hi Hr. rewrite ranges_length in Hi.
      apply lookup_ranges in Hr as [_ ->].
      unfold range_length, nth_range; simpl.
      destruct (Z.ltb_spec (Z.of_nat i) (num_threads dm - 1)); lia.
    + exists (nth_range (total_size dm) (num_threads dm)
                (total_size dm `div` num_threads dm) (num_threads dm - 1)).
      split.
      * rewrite last_lookup, ranges_length.
        apply lookup_ranges. split; [lia|]. f_equal. lia.
      * unfold nth_range; simpl. by rewrite Z.ltb_irrefl.
Qed.

Lemma split_ranges_partition_witness :
  let dm := set_metadata 10000 true (init "http://host/file.bin" "file.bin" 4 8192) in
  0 < total_size dm ∧ 1 ≤ num_threads dm ∧
  ∃ rs, split_ranges dm = Ok rs ∧
        contiguous rs ∧ non_overlapping rs ∧
        covers rs 0 (total_size dm - 1) ∧
        if negb (accept_ranges dm) || (num_threads dm =? 1)
        then rs = [(0, total_size dm - 1)]
        else length rs = Z.to_nat (num_threads dm) ∧
             inner_lengths rs (total_size dm `div` num_threads dm) ∧
             ends_at rs (total_size dm - 1).
Proof.
  intros dm.
  assert (H1 : 0 < total_size dm) by (simpl; lia).
  assert (H2 : 1 ≤ num_threads dm) by (simpl; lia).
  split; [exact H1 | split; [exact H2 | exact (split_ranges_partition dm H1 H2)]].
Defined.

(** The plan of the 10,000-byte example of the specification. *)
Example split_ranges_10000_4 :
  split_ranges (set_metadata 10000 true (init "http://host/file.bin" "file.bin" 4 8192))
  = Ok [(0, 2499); (2500, 4999); (5000, 7499); (7500, 9999)].
Proof. reflexivity. Qed.

(** C8, as stated, fails: with a total size of 0 the planner returns a list
    of ranges and raises nothing. *)
Lemma split_ranges_zero_size_returns :
  ¬ (∀ dm, total_size dm ≤ 0 → ∃ e, split_ranges dm = Raise e).
Proof.
  intros H.
  destruct (H (set_metadata 0 true (init "http://host/file.bin" "file.bin" 4 8192)))
    as [e He]; [simpl; lia | discriminate He].
Qed.

(** C8, amended.  For a total size of 0 or less and at least one worker
    [split_ranges] raises nothing: it returns the one range
    [(0, total_size - 1)] on the single-range path and [num_threads] ranges
    ending at [total_size - 1] on the multi-range path. *)
Theorem split_ranges_nonpositive_size (dm : DownloadManager) :
  total_size dm ≤ 0 → 1 ≤ num_threads dm →
  ∃ rs, split_ranges dm = Ok rs ∧
        if negb (accept_ranges dm) || (num_threads dm =? 1)
        then rs = [(0, total_size dm - 1)]
        else length rs = Z.to_nat (num_threads dm) ∧
             ends_at rs (total_size dm - 1).
Proof.
  intros Htotal Hn. unfold split_ranges.
  destruct (negb (accept_ranges dm) || (num_threads dm =? 1)) eqn:Hsingle.
  - by eexists.
  - destruct (Z.eqb_spec (num_threads dm) 0) as [Hz | _]; [lia|].
    eexists. split; [reflexivity|]. split; [apply ranges_length|].
    exists (nth_range (total_size dm) (num_threads dm)
              (total_size dm `div` num_threads dm) (num_threads dm - 1)).
    split.
    + rewrite last_lookup, ranges_length.
      apply lookup_ranges. split; [lia|]. f_equal. lia.
    + unfold nth_range; simpl. by rewrite Z.ltb_irrefl.
Qed.

Lemma split_ranges_nonpositive_size_witness :
  let dm := set_metadata 0 true (init "http://host/file.bin" "file.bin" 4 8192) in
  total_size dm ≤ 0 ∧ 1 ≤ num_threads dm ∧
  ∃ rs, split_ranges dm = Ok rs ∧
        if negb (accept_ranges dm) || (num_threads dm =? 1)
        then rs = [(0, total_size dm - 1)]
        else length rs = Z.to_nat (num_threads dm) ∧
             ends_at rs (total_size dm - 1).
Proof.
  intros dm.
  assert (H1 : total_size dm ≤ 0) by (simpl; lia).
  assert (H2 : 1 ≤ num_threads dm) by (simpl; lia).
  split; [exact H1 | split; [exact H2 | exact (split_ranges_nonpositive_size dm H1 H2)]].
Defined.

(** ** The constructor *)

(** C10.  The constructor rejects nothing: for every requested worker count
    and block size it stores [max(1, num_threads)] and [max(1024,
    chunk_size)], so the stored worker count is at least 1 and the stored
    block size at least 1024. *)
Theorem init_normalises (url0 out : string) (workers size : Z) :
  let dm := init url0 out workers size in
  num_threads dm = Z.max 1 workers ∧ chunk_size dm = Z.max 1024 size ∧
  1 ≤ num_threads dm ∧ 1024 ≤ chunk_size dm.
Proof. simpl. lia. Qed.

Example init_out_of_range :
  let dm := init "http://host/file.bin" "file.bin" (-3) 10 in
  num_threads dm = 1 ∧ chunk_size dm = 1024.
Proof. split; reflexivity. Qed.

(** ** Runs that end before a fetcher exists *)

(** A run that has ended with no fetcher stays as it is, whatever the
    threads and the caller do next, but for the two flags. *)
Lemma step_ended net a m r :
  coord m = MDone r → fetchers m = [] →
  let m' := step net a m in
  coord m' = MDone r ∧ fetchers m' = [] ∧ outside m' = outside m.
Proof.
  intros Hc Hf. destruct a; simpl; try done.
  - by rewrite Hf.
  - unfold coord_step. by rewrite Hc.
Qed.

Lemma run_ended net schedule : ∀ m r,
  coord m = MDone r → fetchers m = [] →
  let m' := run net schedule m in
  coord m' = MDone r ∧ fetchers m' = [] ∧ outside m' = outside m.
Proof.
  induction schedule as [|a schedule IH]; intros m r Hc Hf; [done|].
  destruct (step_ended net a m r Hc Hf) as (Hc' & Hf' & Hw').
  destruct (IH (step net a m) r Hc' Hf') as (? & ? & Hw).
  simpl. rewrite <- Hw'. done.
Qed.

(** C4.  When the probe reports no range support, [start] raises the
    exception "Server does not support Range requests." whatever the worker
    count; no fetcher has been spawned and the file system is as it was, and
    this stays so however the run is continued. *)
Theorem start_without_range_support net dm w dm' schedule :
  file_name dm ≠ EmptyString →
  get_file_info net (reset dm) = Ok dm' →
  accept_ranges dm' = false →
  let m := run net schedule (start net dm w) in
  coord m = MDone (Raise UnsupportedServerError) ∧
  fetchers m = [] ∧
  fs (outside m) = fs w.
Proof.
  intros Hname Hprobe Hranges m.
  assert (Hstart : coord (start net dm w) = MDone (Raise UnsupportedServerError)
                   ∧ fetchers (start net dm w) = []
                   ∧ fs (outside (start net dm w)) = fs w).
  { unfold start. rewrite bool_decide_eq_false_2 by done.
    rewrite Hprobe, Hranges. simpl.
    unfold start_failed, notify.
    by destruct (status_callback dm'), (status_callback (reset dm)). }
  destruct Hstart as (Hc & Hf & Hw).
  destruct (run_ended net schedule _ _ Hc Hf) as (Hc' & Hf' & Hw').
  subst m. by rewrite Hc', Hf', Hw'.
Qed.

Lemma start_without_range_support_witness :
  let net := mkNetwork (Ok (mkResponse 200 (Some 10000) None))
                       (Raise (RequestError "unused"))
                       (λ _ _, Raise (RequestError "unused")) in
  let dm := init "http://host/file.bin" "file.bin" 1 8192 in
  let m := run net [RunCoordinator; RunFetcher 0] (start net dm Scenario.nothing) in
  coord m = MDone (Raise UnsupportedServerError) ∧
  fetchers m = [] ∧
  fs (outside m) = ∅.
Proof.
  intros net dm.
  apply (start_without_range_support net dm Scenario.nothing
           (set_metadata 10000 false (reset dm)) [RunCoordinator; RunFetcher 0%nat]).
  - discriminate.
  - reflexivity.
  - reflexivity.
Defined.

(** ** After the fetchers have exited *)

Lemma forallb_id_false (st : list bool) : false ∈ st → forallb id st = false.
Proof.
  induction st as [|b st IH]; intros H.
  - by apply elem_of_nil in H.
  - apply elem_of_cons in H as [<- | H]; [done|].
    simpl. rewrite (IH H). apply andb_false_r.
Qed.

(** With a [False] status the closing steps of [start] raise the fixed
    exception of line 223 and leave the files alone. *)
Lemma finish_failed dm w :
  false ∈ thread_status dm →
  finish dm w = (Raise SegmentFailureError, start_failed dm SegmentFailureError w).
Proof. intros H. unfold finish. by rewrite (forallb_id_false _ H). Qed.

Lemma fs_start_failed dm e w : fs (start_failed dm e w) = fs w.
Proof. unfold start_failed. by destruct (status_callback dm). Qed.

(** The monitor loop ends when no fetcher is alive, and the joins that
    follow return at once. *)
Lemma coord_step_leave_loop m :
  coord m = MAlive → existsb is_alive (fetchers m) = false →
  coord_step m = mkMachine (manager m) (outside m) (fetchers m) MJoin.
Proof. intros Hc Hdead. unfold coord_step. by rewrite Hc, Hdead. Qed.

Lemma coord_step_joined m :
  coord m = MJoin → existsb is_alive (fetchers m) = false →
  coord_step m = mkMachine (manager m) (outside m) (fetchers m) MFinish.
Proof. intros Hc Hdead. unfold coord_step. by rewrite Hc, Hdead. Qed.

(** C2, as stated, fails: the exception raised for a failed fetcher is the
    same whichever fetcher failed, so it cannot name the failed indices. *)
Lemma failure_does_not_name_indices :
  ¬ ∃ names : exn → list nat,
      ∀ dm w, false ∈ thread_status dm →
              ∃ e, (finish dm w).1 = Raise e
                   ∧ names e = failed_indices (thread_status dm).
Proof.
  intros [names H].
  pose (dm := Scenario.manager 2).
  destruct (H (set_thread_status [false; true] dm) Scenario.nothing) as (e1 & He1 & Hn1);
    [apply list_elem_of_here|].
  destruct (H (set_thread_status [true; false] dm) Scenario.nothing) as (e2 & He2 & Hn2);
    [apply list_elem_of_further, list_elem_of_here|].
  simpl in He1, He2. injection He1 as <-. injection He2 as <-.
  rewrite Hn1 in Hn2. discriminate Hn2.
Qed.

(** C2, amended.  Once every fetcher has exited and some status is
    [False], the coordinator leaves the monitor loop and the run fails with
    the exception "One or more threads failed to download properly.", the
    same whichever fetchers failed; the error is reported through the status
    callback (or printed), nothing is assembled and the file system is left
    as it was: the output file is not created and every segment store
    stays. *)
Theorem failed_fetcher_fails_run net m :
  coord m = MAlive →
  existsb is_alive (fetchers m) = false →
  false ∈ thread_status (manager m) →
  let m' := run net [RunCoordinator; RunCoordinator; RunCoordinator] m in
  coord m' = MDone (Raise SegmentFailureError) ∧
  fs (outside m') = fs (outside m) ∧
  log (outside m') =
    log (outside m) ++
      [if status_callback (manager m) then StatusError SegmentFailureError
       else PrintError "[!] Download error: " SegmentFailureError] ∧
  fetchers m' = fetchers m.
Proof.
  intros Hc Hdead Hfalse. destruct m as [dm w fl c]; simpl in *. subst c.
  change (run net [RunCoordinator; RunCoordinator; RunCoordinator]
            (mkMachine dm w fl MAlive))
    with (coord_step (coord_step (coord_step (mkMachine dm w fl MAlive)))).
  rewrite (coord_step_leave_loop (mkMachine dm w fl MAlive)) by done.
  cbn [manager outside fetchers coord].
  rewrite (coord_step_joined (mkMachine dm w fl MJoin)) by done.
  cbn [manager outside fetchers coord].
  unfold coord_step; simpl. rewrite (finish_failed _ _ Hfalse). simpl.
  rewrite fs_start_failed.
  unfold start_failed. by destruct (status_callback dm).
Qed.

Lemma failed_fetcher_fails_run_witness :
  let net :=
    mkNetwork (Ok (mkResponse 200 (Some 4) (Some "bytes"%string)))
              (Raise (RequestError "unused"))
              (λ first _, if first =? 0 then Ok (mkSegment 206 [Ok Scenario.b1])
                          else Ok (mkSegment 206 [Raise (RequestError "reset")])) in
  let m := run net (Scenario.steps 0 10 ++ Scenario.steps 1 3)
               (start net (Scenario.manager 2) Scenario.nothing) in
  let m' := run net [RunCoordinator; RunCoordinator; RunCoordinator] m in
  thread_status (manager m) = [true; false] ∧
  coord m' = MDone (Raise SegmentFailureError) ∧
  fs (outside m') = fs (outside m) ∧
  fs (outside m') !! "file.bin"%string = None ∧
  fs (outside m') !! "file.bin.part0"%string = Some Scenario.b1.
Proof.
  intros net m m'.
  assert (Hst : thread_status (manager m) = [true; false]) by (vm_compute; reflexivity).
  destruct (failed_fetcher_fails_run net m) as (Hc & Hfs & _).
  - vm_compute; reflexivity.
  - vm_compute; reflexivity.
  - rewrite Hst. apply list_elem_of_further, list_elem_of_here.
  - split; [exact Hst|]. split; [exact Hc|]. split; [exact Hfs|].
    split; vm_compute; reflexivity.
Defined.

(** ** Assembly *)

(** Names of the segment stores. *)

Lemma to_int_normal (z : Z) :
  Z.to_int z ≠ Decimal.Pos Decimal.Nil ∧ Z.to_int z ≠ Decimal.Neg Decimal.Nil.
Proof.
  rewrite <- (DecimalZ.of_to z), DecimalZ.to_of.
  destruct (Z.to_int z) as [d | d]; simpl.
  - split; [|discriminate]. intros [= H]. by apply DecimalFacts.unorm_nonnil in H.
  - destruct (Decimal.nzhead d); split; discriminate.
Qed.

Lemma str_inj (i j : Z) : Py.str i = Py.str j → i = j.
Proof.
  unfold Py.str. intros H.
  destruct (to_int_normal i) as [Hi1 Hi2], (to_int_normal j) as [Hj1 Hj2].
  pose proof (NilZero.isi _ Hi1 Hi2) as Ei.
  pose proof (NilZero.isi _ Hj1 Hj2) as Ej.
  rewrite H, Ej in Ei. injection Ei as Ei.
  by apply DecimalZ.to_int_inj.
Qed.

Lemma string_app_empty (s : string) : s +:+ "" = s.
Proof.
  induction s as [|c s IH]; [done|].
  change (String c (s +:+ "") = String c s). by rewrite IH.
Qed.

Lemma part_file_inj dm (i j : Z) : part_file dm i = part_file dm j → i = j.
Proof.
  unfold part_file. intros H.
  apply (String.app_inj (file_name dm)) in H.
  apply (String.app_inj ".part") in H.
  by apply str_inj.
Qed.

Lemma part_file_not_output dm (i : Z) : part_file dm i ≠ file_name dm.
Proof.
  unfold part_file. intros H.
  rewrite <- (string_app_empty (file_name dm)) in H at 2.
  apply (String.app_inj (file_name dm)) in H. discriminate H.
Qed.

(** Copying one store. *)

Lemma read_nonempty size (rest : list Byte.byte) :
  size ≠ 0 → rest ≠ [] →
  read size rest ≠ [] ∧ read size rest ++ drop (length (read size rest)) rest = rest.
Proof.
  intros Hsize Hrest. unfold read.
  destruct (Z.ltb_spec size 0).
  - split; [done|]. by rewrite drop_all, app_nil_r.
  - destruct rest as [|x rest]; [done|].
    assert (∃ k, Z.to_nat size = S k) as [k Hk] by (exists (Nat.pred (Z.to_nat size)); lia).
    rewrite Hk. split; [done|].
    destruct (decide (S k ≤ length (x :: rest))%nat).
    + rewrite length_take_le by done. apply take_drop.
    + rewrite take_ge by lia. by rewrite drop_all, app_nil_r.
Qed.

Lemma copy_loop_all size : ∀ fuel (rest out : list Byte.byte),
  size ≠ 0 → (length rest < fuel)%nat →
  copy_loop fuel size rest out = out ++ rest.
Proof.
  induction fuel as [|fuel IH]; intros rest out Hsize Hfuel; [lia|].
  destruct rest as [|x rest].
  - simpl. unfold read. destruct (size <? 0); [by rewrite app_nil_r|].
    rewrite take_nil. by rewrite app_nil_r.
  - destruct (read_nonempty size (x :: rest) Hsize ltac:(done)) as [Hne Hsplit].
    simpl copy_loop. destruct (read size (x :: rest)) as [|y data] eqn:Hread; [done|].
    rewrite IH; [| done |].
    + rewrite <- app_assoc. f_equal. exact Hsplit.
    + apply (f_equal length) in Hsplit. rewrite length_app in Hsplit.
      simpl in *. lia.
Qed.

Lemma combine_loop_cons dm i indices (files : gmap string (list Byte.byte)) :
  combine_loop dm (i :: indices) files =
  match files !! part_file dm i with
  | None => (Raise (FileNotFoundError (part_file dm i)), files)
  | Some content =>
      let out := default [] (files !! file_name dm) in
      let out' := copy_loop (S (length content)) (chunk_size dm) content out in
      combine_loop dm indices
        (delete (part_file dm i) (<[file_name dm := out']> files))
  end.
Proof. reflexivity. Qed.

(** The loop over the stores.  From index [j] on, [len] stores are to be
    copied; [k] of them are, until one is missing or all are done. *)
Lemma combine_loop_spec dm (Hsize : chunk_size dm ≠ 0) :
  ∀ (len : nat) (j : Z) (files : gmap string (list Byte.byte)) out,
    files !! file_name dm = Some out →
    ∃ (k : nat) (contents : list (list Byte.byte)),
      (k ≤ len)%nat ∧ length contents = k ∧
      (∀ (i : nat) c, contents !! i = Some c →
                      files !! part_file dm (j + Z.of_nat i) = Some c) ∧
      let '(r, files') := combine_loop dm (seqZ j (Z.of_nat len)) files in
      files' !! file_name dm = Some (out ++ concat contents) ∧
      (∀ i : nat, (i < k)%nat → files' !! part_file dm (j + Z.of_nat i) = None) ∧
      (∀ p, p ≠ file_name dm →
            (∀ i : nat, (i < k)%nat → p ≠ part_file dm (j + Z.of_nat i)) →
            files' !! p = files !! p) ∧
      (if decide (k = len) then r = Ok tt
       else r = Raise (FileNotFoundError (part_file dm (j + Z.of_nat k)))
            ∧ files !! part_file dm (j + Z.of_nat k) = None).
Proof.
  induction len as [|len IH]; intros j files out Hout.
  - exists 0%nat, []. simpl. split; [done|]. split; [done|]. split; [done|].
    rewrite app_nil_r. split; [done|]. split; [lia|]. split; done.
  - rewrite seqZ_cons by lia. rewrite Nat2Z.inj_succ, Z.pred_succ.
    rewrite combine_loop_cons.
    destruct (files !! part_file dm j) as [content|] eqn:Hpart.
    + (* the store is there: copied, deleted, and on to the next *)
      cbv zeta. rewrite copy_loop_all by (done || lia). rewrite Hout. simpl default.
      set (files1 := delete (part_file dm j) (<[file_name dm := out ++ content]> files)).
      assert (Hout1 : files1 !! file_name dm = Some (out ++ content)).
      { unfold files1. rewrite lookup_delete_ne by apply part_file_not_output.
        apply lookup_insert_eq. }
      destruct (IH (Z.succ j) files1 _ Hout1) as (k & contents & Hk & Hlen & Hsrc & Hloop).
      exists (S k), (content :: contents).
      split; [lia|]. split; [simpl; lia|]. split.
      { intros [|i] c Hc; simpl in Hc.
        - injection Hc as <-. by rewrite Z.add_0_r.
        - apply Hsrc in Hc. unfold files1 in Hc.
          rewrite lookup_delete_ne in Hc
            by (intros E; apply part_file_inj in E; lia).
          rewrite lookup_insert_ne in Hc
            by (intros E; symmetry in E; by apply part_file_not_output in E).
          by replace (j + Z.of_nat (S i)) with (Z.succ j + Z.of_nat i) by lia. }
      destruct (combine_loop dm (seqZ (Z.succ j) (Z.of_nat len)) files1)
        as [r files'] eqn:Hrun.
      destruct Hloop as (Hres & Hgone & Hframe & Hend).
      split; [simpl; by rewrite app_assoc|]. split.
      { intros [|i] Hi.
        - rewrite Z.add_0_r. rewrite Hframe.
          + unfold files1. apply lookup_delete_eq.
          + apply part_file_not_output.
          + intros i' _ E. apply part_file_inj in E. lia.
        - replace (j + Z.of_nat (S i)) with (Z.succ j + Z.of_nat i) by lia.
          apply Hgone. lia. }
      split.
      { intros p Hp Hnot. rewrite Hframe.
        - unfold files1. rewrite lookup_delete_ne.
          + by rewrite lookup_insert_ne.
          + intros E. apply (Hnot 0%nat); [lia|]. by rewrite Z.add_0_r.
        - done.
        - intros i Hi E. apply (Hnot (S i)); [lia|].
          by replace (j + Z.of_nat (S i)) with (Z.succ j + Z.of_nat i) by lia. }
      destruct (decide (k = len)) as [-> | Hne].
      * by rewrite decide_True.
      * rewrite decide_False by lia. destruct Hend as [-> Hmiss].
        replace (j + Z.of_nat (S k)) with (Z.succ j + Z.of_nat k) by lia.
        split; [done|]. unfold files1 in Hmiss.
        rewrite lookup_delete_ne in Hmiss
          by (intros E; apply part_file_inj in E; lia).
        by rewrite lookup_insert_ne in Hmiss
          by (intros E; symmetry in E; by apply part_file_not_output in E).
    + (* the store is missing: the loop stops here *)
      exists 0%nat, []. split; [lia|]. split; [done|]. split; [done|].
      rewrite app_nil_r. split; [done|]. split; [lia|]. split; [done|].
      rewrite decide_False by lia. by rewrite Z.add_0_r.
Qed.

(** C7, as stated, fails: when the second of two segment stores is
    missing, assembly fails after it has copied and deleted the first
    one. *)
Lemma assembly_failure_deletes_copied_stores :
  ¬ (∀ dm w e (i : Z),
       (combine_chunks dm w).1 = Raise e →
       is_Some (fs w !! part_file dm i) →
       is_Some (fs (combine_chunks dm w).2 !! part_file dm i)).
Proof.
  intros H.
  destruct (H (Scenario.manager 2)
              (mkWorld {[ "file.bin.part0"%string := Scenario.b1 ]} [])
              (FileNotFoundError "file.bin.part1") 0) as [content Hcontent].
  - vm_compute. reflexivity.
  - exists Scenario.b1. vm_compute. reflexivity.
  - vm_compute in Hcontent. discriminate Hcontent.
Qed.

(** C7, amended.  With a block size other than 0, [_combine_chunks] copies
    the segment stores in index order and deletes each one right after it
    has been copied in full, never before: it stops at the first index [k]
    whose store is missing, or at [num_threads].  The output file then
    holds the stores before [k], in order; these stores are gone, and the
    stores from [k] on are as they were.  Assembly succeeds exactly when
    [k] is [num_threads], and no store is left then; when it fails the
    stores before [k] have been deleted all the same. *)
Theorem combine_chunks_deletes_after_copy dm w :
  chunk_size dm ≠ 0 →
  ∃ (k : nat) (contents : list (list Byte.byte)),
    (k ≤ Z.to_nat (num_threads dm))%nat ∧ length contents = k ∧
    (∀ (i : nat) c, contents !! i = Some c →
                    fs w !! part_file dm (Z.of_nat i) = Some c) ∧
    let '(r, w') := combine_chunks dm w in
    fs w' !! file_name dm = Some (concat contents) ∧
    (∀ i : nat, (i < k)%nat → fs w' !! part_file dm (Z.of_nat i) = None) ∧
    (∀ i : nat, (k ≤ i)%nat →
                fs w' !! part_file dm (Z.of_nat i) = fs w !! part_file dm (Z.of_nat i)) ∧
    (if decide (k = Z.to_nat (num_threads dm)) then r = Ok tt
     else r = Raise (FileNotFoundError (part_file dm (Z.of_nat k)))
          ∧ fs w !! part_file dm (Z.of_nat k) = None).
Proof.
  intros Hsize.
  assert (Hopen : ∀ i, <[file_name dm := []]> (fs w) !! part_file dm i
                       = fs w !! part_file dm i).
  { intros i. apply lookup_insert_ne. intros E. symmetry in E.
    by apply part_file_not_output in E. }
  destruct (combine_loop_spec dm Hsize (Z.to_nat (num_threads dm)) 0
              (<[file_name dm := []]> (fs w)) [])
    as (k & contents & Hk & Hlen & Hsrc & Hloop); [apply lookup_insert_eq|].
  exists k, contents. split; [done|]. split; [done|]. split.
  { intros i c Hc. rewrite <- Hopen. by apply Hsrc. }
  unfold combine_chunks, Py.range.
  replace (seqZ 0 (num_threads dm))
    with (seqZ 0 (Z.of_nat (Z.to_nat (num_threads dm))))
    by (unfold seqZ; by rewrite Nat2Z.id).
  destruct (combine_loop dm (seqZ 0 (Z.of_nat (Z.to_nat (num_threads dm))))
              (<[file_name dm := []]> (fs w))) as [r files'] eqn:Hrun.
  destruct Hloop as (Hres & Hgone & Hframe & Hend). simpl in *.
  assert (Hfs : ∀ (ev1 ev2 : event),
            fs (if status_callback dm then emit ev1 (set_fs files' w)
                else emit ev2 (set_fs files' w)) = files').
  { intros. by destruct (status_callback dm). }
  assert (Hgoal :
    files' !! file_name dm = Some (concat contents) ∧
    (∀ i : nat, (i < k)%nat → files' !! part_file dm (Z.of_nat i) = None) ∧
    (∀ i : nat, (k ≤ i)%nat →
                files' !! part_file dm (Z.of_nat i) = fs w !! part_file dm (Z.of_nat i))).
  { split; [done|]. split; [done|].
    intros i Hi. rewrite Hframe.
    - apply Hopen.
    - apply part_file_not_output.
    - intros i' Hi' E. apply part_file_inj in E. lia. }
  destruct Hgoal as (G1 & G2 & G3).
  destruct r as [[]|e]; rewrite Hfs.
  - split; [done|]. split; [done|]. split; [done|].
    destruct (decide (k = Z.to_nat (num_threads dm))); [done|].
    by destruct Hend.
  - split; [done|]. split; [done|]. split; [done|].
    destruct (decide (k = Z.to_nat (num_threads dm))); [done|].
    destruct Hend as [He Hmiss]. split; [done|]. by rewrite <- Hopen.
Qed.

Lemma combine_chunks_deletes_after_copy_witness :
  let dm := Scenario.manager 2 in
  let w := mkWorld {[ "file.bin.part0"%string := Scenario.b1 ]} [] in
  ∃ (k : nat) (contents : list (list Byte.byte)),
    (k ≤ Z.to_nat (num_threads dm))%nat ∧ length contents = k ∧
    (∀ (i : nat) c, contents !! i = Some c →
                    fs w !! part_file dm (Z.of_nat i) = Some c) ∧
    let '(r, w') := combine_chunks dm w in
    fs w' !! file_name dm = Some (concat contents) ∧
    (∀ i : nat, (i < k)%nat → fs w' !! part_file dm (Z.of_nat i) = None) ∧
    (∀ i : nat, (k ≤ i)%nat →
                fs w' !! part_file dm (Z.of_nat i) = fs w !! part_file dm (Z.of_nat i)) ∧
    (if decide (k = Z.to_nat (num_threads dm)) then r = Ok tt
     else r = Raise (FileNotFoundError (part_file dm (Z.of_nat k)))
          ∧ fs w !! part_file dm (Z.of_nat k) = None).
Proof.
  intros dm w. apply (combine_chunks_deletes_after_copy dm w).
  simpl. lia.
Defined.

(** A successful assembly: both stores copied in order and removed. *)
Example combine_chunks_success :
  let w := mkWorld {[ "file.bin.part0"%string := Scenario.b1;
                      "file.bin.part1"%string := Scenario.b2 ]} [] in
  let '(r, w') := combine_chunks (Scenario.manager 2) w in
  r = Ok tt ∧
  map_to_list (fs w') = [("file.bin"%string, Scenario.b1 ++ Scenario.b2)].
Proof. vm_compute. done. Qed.

(** ** Progress reports *)

Section Rounding.

Local Open Scope Q_scope.

Lemma floor_bounds (q : Q) : inject_Z (Qfloor q) <= q < inject_Z (Qfloor q) + 1.
Proof.
  split; [apply Qfloor_le|].
  pose proof (Qlt_floor q) as H. rewrite inject_Z_plus in H. exact H.
Qed.



Lemma round_half_even_integer (z : Z) : round_half_even (inject_Z z) = z.
Proof.
  unfold round_half_even. rewrite Qfloor_Z.
  destruct (inject_Z z - inject_Z z ?= 1 # 2) eqn:C;
    [apply Qeq_alt in C; lra | done | apply Qgt_alt in C; lra].
Qed.








End Rounding.

(** What a run adds to the percent values handed to the callback. *)


Lemma percents_set_fs files w : percents (set_fs files w) = percents w.
Proof. done. Qed.














(** ** Stopping a run *)

(** A step of a fetcher in its pause loop changes nothing while the pause
    flag is set, whatever the stop flag says. *)
Lemma pause_loop_spins net m i f b stream :
  fetchers m !! i = Some f → pc f = FPauseCheck b stream →
  pause_event (manager m) = true →
  step net (RunFetcher i) m = m.
Proof.
  intros Hf Hpc Hpause. destruct m as [dm w fl c], f as [idx cb p].
  simpl in *. subst p. rewrite Hf. unfold fetcher_step; simpl.
  rewrite Hpause. f_equal. by apply list_insert_id.
Qed.

(** While the pause flag is set, a fetcher in its pause loop stays there
    for any number of steps: the loop never looks at the stop flag. *)
Lemma pause_loop_ignores_stop net m i f b stream (n : nat) :
  fetchers m !! i = Some f → pc f = FPauseCheck b stream →
  pause_event (manager m) = true →
  run net (Scenario.steps i n) m = m.
Proof.
  intros Hf Hpc Hpause. induction n as [|n IH]; [done|].
  change (run net (Scenario.steps i (S n)) m)
    with (run net (Scenario.steps i n) (step net (RunFetcher i) m)).
  by rewrite (pause_loop_spins net m i f b stream).
Qed.

(** C3 on the code: a fetcher is waiting in its pause loop when the caller
    stops the run.  The coordinator reports "stopped" and returns, but the
    fetcher stays alive in the loop for as long as the pause flag is set,
    and once the flag is cleared it writes the block it was holding, with
    the stop flag set all along. *)
Theorem stop_while_paused_still_writes :
  let net := Scenario.server [Ok Scenario.b1; Ok Scenario.b2] in
  let m0 := start net (Scenario.manager 1) Scenario.nothing in
  let m1 := run net (Scenario.steps 0 3 ++ [SetPause] ++ Scenario.steps 0 2
                     ++ [SetStop; RunCoordinator; RunCoordinator]) m0 in
  let m2 := run net ([ClearPause] ++ Scenario.steps 0 2) m1 in
  (stop_event (manager m1) = true ∧ coord m1 = MDone (Ok tt) ∧
   Status "stopped" ∈ log (outside m1) ∧ written m1 0 = []) ∧
  (∀ n, run net (Scenario.steps 0 n) m1 = m1) ∧
  (stop_event (manager m2) = true ∧ written m2 0 = Scenario.b1).
Proof.
  intros net m0 m1 m2. split; [|split].
  - split; [vm_compute; reflexivity|]. split; [vm_compute; reflexivity|].
    split; [|vm_compute; reflexivity].
    assert (E : log (outside m1) =
                [Print "file.bin"; Status "starting"; Status "downloading";
                 Status "stopped"]) by (vm_compute; reflexivity).
    rewrite E. do 3 apply list_elem_of_further. apply list_elem_of_here.
  - intros n.
    apply (pause_loop_ignores_stop net m1 0
             (mkFetcher 0 false (FPauseCheck Scenario.b1 [Ok Scenario.b2]))
             Scenario.b1 [Ok Scenario.b2]); vm_compute; reflexivity.
  - split; vm_compute; reflexivity.
Qed.

(** When every fetcher has seen the stop flag and returned before the
    monitor loop looks again, the run ends with the error of line 223, not
    as stopped. *)
Lemma stop_seen_late_reports_error :
  let net := Scenario.server [Ok Scenario.b1; Ok Scenario.b2] in
  let m0 := start net (Scenario.manager 1) Scenario.nothing in
  let m := run net (Scenario.steps 0 3 ++ [SetStop; RunFetcher 0]
                    ++ replicate 3 RunCoordinator) m0 in
  coord m = MDone (Raise SegmentFailureError) ∧
  log (outside m) =
    [Print "file.bin"; Status "starting"; Status "downloading";
     StatusError SegmentFailureError].
Proof. intros net m0 m. split; vm_compute; reflexivity. Qed.

(** A fetcher at its stop test does return when the flag is set, and writes
    nothing more. *)
Lemma stop_check_returns net m i f b stream :
  fetchers m !! i = Some f → pc f = FStopCheck b stream →
  stop_event (manager m) = true →
  let m' := step net (RunFetcher i) m in
  (pc <$> fetchers m' !! i) = Some (FDead Returned) ∧ outside m' = outside m.
Proof.
  intros Hf Hpc Hstop. destruct m as [dm w fl c], f as [idx cb p].
  simpl in *. subst p. rewrite Hf. unfold fetcher_step; simpl.
  rewrite Hstop. simpl. split; [|done].
  rewrite list_lookup_insert_eq; [done|]. by eapply lookup_lt_Some.
Qed.

(** ** The shared counter *)

(** C9 on the code: two fetchers each write one block of two bytes.  Both
    read the counter before either stores it back, and one of the two
    increments is lost: four bytes are on disk and the counter says two. *)
Theorem concurrent_increment_lost :
  let net := Scenario.server [Ok Scenario.b1] in
  let m0 := start net (Scenario.manager 2) Scenario.nothing in
  let schedule :=
    Scenario.steps 0 6 ++ Scenario.steps 1 6
    ++ [RunFetcher 0; RunFetcher 1; RunFetcher 0; RunFetcher 1]
    ++ Scenario.steps 0 2 ++ Scenario.steps 1 2 in
  let m := run net schedule m0 in
  (pc <$> fetchers m) = [FDead Succeeded; FDead Succeeded] ∧
  thread_status (manager m) = [true; true] ∧
  (length (written m 0) + length (written m 1))%nat = 4%nat ∧
  downloaded_total (manager m) = 2.
Proof. intros net m0 schedule m. repeat split; vm_compute; reflexivity. Qed.

(** The same two fetchers one after the other: nothing is lost. *)
Example sequential_increments_kept :
  let net := Scenario.server [Ok Scenario.b1] in
  let m0 := start net (Scenario.manager 2) Scenario.nothing in
  let m := run net (Scenario.steps 0 10 ++ Scenario.steps 1 10) m0 in
  (pc <$> fetchers m) = [FDead Succeeded; FDead Succeeded] ∧
  downloaded_total (manager m) = 4.
Proof. intros net m0 m. split; vm_compute; reflexivity. Qed.

(** ** Where the files go *)

(** C6 on the code: the caller asks for "out/result.bin"; the segment
    store is named after the last part of the URL, and so is the file the
    assembly writes.  Nothing is ever written at the requested path. *)
Theorem output_written_at_url_name :
  let net := Scenario.server [Ok Scenario.b1; Ok Scenario.b2] in
  let dm := Scenario.manager 1 in
  let m0 := start net dm Scenario.nothing in
  let m1 := run net (Scenario.steps 0 8) m0 in
  let m2 := run net (Scenario.steps 0 9 ++ replicate 3 RunCoordinator) m1 in
  output_path dm = "out/result.bin"%string ∧
  part_file dm 0 = "file.bin.part0"%string ∧
  map_to_list (fs (outside m1)) = [("file.bin.part0"%string, Scenario.b1)] ∧
  coord m2 = MDone (Ok tt) ∧
  map_to_list (fs (outside m2)) = [("file.bin"%string, Scenario.b1 ++ Scenario.b2)] ∧
  fs (outside m2) !! output_path dm = None.
Proof. intros net dm m0 m1 m2. repeat split; vm_compute; reflexivity. Qed.

(** The caller of the repository falls back to "download.bin" for a URL
    that ends in a slash; the core ignores the name it is given and
    rejects the run. *)
Example start_ignores_fallback_name :
  let net := Scenario.server [Ok Scenario.b1] in
  let dm := init "http://host/dir/" "download.bin" 4 8192 in
  coord (start net dm Scenario.nothing)
  = MDone (Raise (ValueError "Output filename invalid: ")).
Proof. reflexivity. Qed.

(** ** More on the constructor and the names it derives *)

Lemma split_not_nil sep s : Py.split sep s ≠ [].
Proof.
  destruct s as [|c s]; simpl; [done|].
  destruct (Ascii.eqb c sep); [done|]. by destruct (Py.split sep s).
Qed.

Lemma last_item_cons w (ws : list string) :
  ws ≠ [] → Py.last_item (w :: ws) = Py.last_item ws.
Proof. unfold Py.last_item. by destruct ws. Qed.

(** A string without the separator is its own only part. *)
Lemma split_no_sep sep s : sep ∉ chars s → Py.split sep s = [s].
Proof.
  induction s as [|c s IH]; intros Hs; [done|].
  unfold chars in *. simpl in *.
  apply not_elem_of_cons in Hs as [Hc Hs].
  destruct (Ascii.eqb_spec c sep) as [-> | _]; [done|].
  by rewrite (IH Hs).
Qed.

(** A string that is its own only part holds no separator. *)
Lemma split_single_no_sep sep : ∀ s w, Py.split sep s = [w] → sep ∉ chars s.
Proof.
  induction s as [|x s IH]; intros w Hsplit; [apply not_elem_of_nil|].
  unfold chars in *. simpl in *.
  pose proof (split_not_nil sep s) as Hne.
  destruct (Ascii.eqb_spec x sep) as [-> | Hx].
  - injection Hsplit as _ E. done.
  - destruct (Py.split sep s) as [|v vs] eqn:E; [done|].
    injection Hsplit as _ ->.
    apply not_elem_of_cons. split; [congruence | by apply (IH v)].
Qed.

Lemma chars_app_sep sep d : sep ∈ chars (d +:+ String sep EmptyString).
Proof.
  unfold chars. induction d as [|x d IH]; [apply list_elem_of_here|].
  change (sep ∈ x :: list_ascii_of_string (d +:+ String sep EmptyString)).
  by apply list_elem_of_further.
Qed.

(** The last part holds no separator. *)
Lemma last_item_no_sep sep s : sep ∉ chars (Py.last_item (Py.split sep s)).
Proof.
  induction s as [|c s IH]; [apply not_elem_of_nil|].
  simpl. destruct (Ascii.eqb_spec c sep) as [-> | Hc].
  - rewrite last_item_cons by apply split_not_nil. exact IH.
  - pose proof (split_not_nil sep s) as Hne.
    destruct (Py.split sep s) as [|w [|w' ws]]; [done | |].
    + unfold Py.last_item, chars in *. simpl in *.
      apply not_elem_of_cons. split; [congruence | exact IH].
    + exact IH.
Qed.

(** The string is a directory part, empty or ending with the separator,
    followed by the last part. *)
Lemma last_item_suffix sep s :
  ∃ dir, s = dir +:+ Py.last_item (Py.split sep s)
         ∧ (dir = EmptyString ∨ ∃ d, dir = d +:+ String sep EmptyString).
Proof.
  induction s as [|c s (dir & Hs & Hdir)].
  - exists EmptyString. split; [done | by left].
  - simpl. destruct (Ascii.eqb_spec c sep) as [-> | Hc].
    + rewrite last_item_cons by apply split_not_nil.
      exists (String sep dir). split.
      * change (String sep s = String sep (dir +:+ Py.last_item (Py.split sep s))).
        by rewrite <- Hs.
      * right. destruct Hdir as [-> | [d ->]].
        -- by exists EmptyString.
        -- by exists (String sep d).
    + pose proof (split_not_nil sep s) as Hne.
      pose proof (last_item_no_sep sep s) as Hlast.
      destruct (Py.split sep s) as [|w [|w' ws]] eqn:Hsplit; [done | |].
      * (* no separator at all in the rest *)
        destruct Hdir as [-> | [d ->]].
        -- exists EmptyString. split; [|by left].
           unfold Py.last_item in *. simpl in *. by rewrite Hs.
        -- exfalso. (* a directory part means a second part *)
           apply split_single_no_sep in Hsplit. apply Hsplit.
           rewrite Hs. clear.
           unfold chars. induction d as [|x d IH].
           ++ apply list_elem_of_here.
           ++ change (sep ∈ x :: list_ascii_of_string
                        ((d +:+ String sep EmptyString) +:+ Py.last_item [w])).
              by apply list_elem_of_further.
      * destruct Hdir as [-> | [d ->]].
        -- (* the rest would be its own last part, with no separator *)
           exfalso.
           assert (Hs' : s = Py.last_item (w :: w' :: ws)) by exact Hs.
           rewrite <- Hs' in Hlast. apply (split_no_sep sep s) in Hlast.
           rewrite Hsplit in Hlast. discriminate Hlast.
        -- exists (String c (d +:+ String sep EmptyString)). split.
           ++ change (Py.last_item (String c w :: w' :: ws))
                with (Py.last_item (w :: w' :: ws)).
              change (String c s = String c ((d +:+ String sep EmptyString)
                                   +:+ Py.last_item (w :: w' :: ws))).
              by rewrite <- Hs.
           ++ right. by exists (String c d).
Qed.

(** X1.  The file name the constructor derives from the URL holds no
    slash, and the URL is that name preceded by nothing or by a part that
    ends with a slash: the name is what follows the last slash. *)
Theorem init_file_name_after_last_slash (url0 out : string) (workers size : Z) :
  let dm := init url0 out workers size in
  ("/"%char ∉ chars (file_name dm)) ∧
  ∃ dir, url0 = dir +:+ file_name dm
         ∧ (dir = EmptyString ∨ ∃ d, dir = d +:+ "/").
Proof. split; [apply last_item_no_sep | apply last_item_suffix]. Qed.

Lemma last_item_trailing_sep sep u :
  Py.last_item (Py.split sep (u +:+ String sep EmptyString)) = EmptyString.
Proof.
  induction u as [|c u IH].
  - change (Py.last_item (Py.split sep (String sep EmptyString)) = EmptyString).
    simpl. by rewrite Ascii.eqb_refl.
  - change (Py.last_item (Py.split sep (String c (u +:+ String sep EmptyString)))
            = EmptyString).
    simpl. destruct (Ascii.eqb_spec c sep) as [-> | Hc].
    + rewrite last_item_cons by apply split_not_nil. exact IH.
    + pose proof (split_not_nil sep (u +:+ String sep EmptyString)) as Hne.
      destruct (Py.split sep (u +:+ String sep EmptyString)) as [|w [|w' ws]] eqn:E;
        [done | | exact IH].
      exfalso. apply split_single_no_sep in E. apply E, chars_app_sep.
Qed.

(** X2.  For a URL that ends with a slash the derived file name is empty
    and [start] raises [ValueError] at once, whatever destination name, worker
    count and callbacks were given and whatever the server would answer:
    the file name is printed, no status callback is made (not even "error"),
    no thread is spawned and the file system is left as it was. *)
Theorem start_url_ending_in_slash net (u out : string) (workers size : Z)
    (progress status : bool) w :
  let dm := attach_callbacks progress status (init (u +:+ "/") out workers size) in
  let m := start net dm w in
  coord m = MDone (Raise (ValueError "Output filename invalid: ")) ∧
  fetchers m = [] ∧ manager m = dm ∧
  fs (outside m) = fs w ∧ log (outside m) = log w ++ [Print ""].
Proof.
  intros dm m.
  assert (Hname : file_name dm = EmptyString) by apply last_item_trailing_sep.
  subst m. unfold start. rewrite Hname. simpl. done.
Qed.

(** ** The caller's file name *)

(** X3.  The object the window builds for a non-empty URL field asks for
    the very name the core derives, except for a URL ending with a slash:
    there the window asks for "download.bin", the core's own name is empty,
    and [start] raises [ValueError] without using the fallback. *)
Theorem gui_name_or_rejected net (text : string) dm w :
  Gui.on_start text = Some dm →
  (file_name dm ≠ EmptyString ∧ output_path dm = file_name dm) ∨
  (file_name dm = EmptyString ∧ output_path dm = "download.bin"%string ∧
   coord (start net dm w) = MDone (Raise (ValueError "Output filename invalid: "))).
Proof.
  unfold Gui.on_start, Gui.worker, Gui.filename. intros H.
  destruct (bool_decide (Py.strip text = EmptyString)); [discriminate H|].
  injection H as <-. simpl.
  destruct (decide (Py.last_item (Py.split "/" (Py.strip text)) = EmptyString))
    as [E | E].
  - right. rewrite bool_decide_eq_true_2 by done. split; [done|]. split; [done|].
    unfold start. simpl. rewrite E. done.
  - left. by rewrite bool_decide_eq_false_2 by done.
Qed.

Lemma gui_name_or_rejected_witness :
  let net := Scenario.server [Ok Scenario.b1] in
  let dm := Gui.worker "http://host/dir/" "download.bin" in
  Gui.on_start "  http://host/dir/  " = Some dm ∧
  ((file_name dm ≠ EmptyString ∧ output_path dm = file_name dm) ∨
   (file_name dm = EmptyString ∧ output_path dm = "download.bin"%string ∧
    coord (start net dm Scenario.nothing)
    = MDone (Raise (ValueError "Output filename invalid: ")))).
Proof.
  intros net dm.
  assert (H : Gui.on_start "  http://host/dir/  " = Some dm) by reflexivity.
  split; [exact H|].
  exact (gui_name_or_rejected net "  http://host/dir/  " dm Scenario.nothing H).
Defined.

(** ** The metadata probe *)

(** X4.  [get_file_info] either returns the object with only the total size
    and the range flag replaced, or raises an exception whose message is
    "Failed to fetch file metadata: " followed by the cause; an exception
    raised by the header-only request is such a cause at once, whatever the
    streaming request would have answered. *)
Theorem get_file_info_outcome net dm :
  match get_file_info net dm with
  | Ok dm' => ∃ total ranges, dm' = set_metadata total ranges dm
  | Raise e =>
      (∃ cause, e = Wrapped "Failed to fetch file metadata: " cause) ∧
      ∀ cause, net_head net = Raise cause →
               e = Wrapped "Failed to fetch file metadata: " cause
  end.
Proof.
  unfold get_file_info.
  destruct (net_head net) as [r | e0].
  - destruct (negb (response_ok r) || negb (bool_decide (is_Some (content_length r)))).
    + destruct (net_get net) as [r' | e1].
      * destruct (response_ok r').
        -- destruct (content_length r'); [by eexists _, _|].
           split; [by eexists | discriminate].
        -- split; [by eexists | discriminate].
      * split; [by eexists | discriminate].
    + destruct (content_length r); [by eexists _, _|].
      split; [by eexists | discriminate].
  - split; [by eexists|]. by intros cause [= ->].
Qed.

(** X5.  A header-only answer that is successful and carries a size is
    final: the streaming request is not made (its answer does not matter),
    the size is that of the header, and range support is declared exactly
    when the [Accept-Ranges] header, lower-cased, is "bytes"; a missing
    header means no support. *)
Theorem get_file_info_head_suffices net dm r total :
  net_head net = Ok r → response_ok r = true → content_length r = Some total →
  ∃ dm', get_file_info net dm = Ok dm' ∧
         get_file_info (mkNetwork (net_head net) (Raise (RequestError "down"))
                                  (net_get_range net)) dm = Ok dm' ∧
         total_size dm' = total ∧
         (accept_ranges dm' = true ↔
            ∃ h, accept_ranges_header r = Some h ∧ Py.lower h = "bytes"%string).
Proof.
  intros Hhead Hok Hlen. unfold get_file_info; simpl.
  rewrite Hhead. cbv beta iota. rewrite Hok, Hlen.
  rewrite bool_decide_eq_true_2 by eauto. simpl. rewrite Hlen.
  eexists. split; [reflexivity|]. split; [reflexivity|]. split; [done|].
  simpl. rewrite bool_decide_eq_true. split.
  - destruct (accept_ranges_header r) as [h|]; simpl; [by exists h | discriminate].
  - by intros (h & -> & Hh).
Qed.

Lemma get_file_info_head_suffices_witness :
  let r := mkResponse 200 (Some 10000) (Some "Bytes"%string) in
  let net := mkNetwork (Ok r) (Ok (mkResponse 200 (Some 5) None))
                       (λ _ _, Raise (RequestError "unused")) in
  let dm := init "http://host/file.bin" "file.bin" 4 8192 in
  ∃ dm', get_file_info net dm = Ok dm' ∧
         get_file_info (mkNetwork (net_head net) (Raise (RequestError "down"))
                                  (net_get_range net)) dm = Ok dm' ∧
         total_size dm' = 10000 ∧
         (accept_ranges dm' = true ↔
            ∃ h, accept_ranges_header r = Some h ∧ Py.lower h = "bytes"%string).
Proof.
  intros r net dm.
  apply (get_file_info_head_suffices net dm r 10000); reflexivity.
Defined.

(** X6.  When the header-only answer is an error status or lacks a size,
    the answer of the streaming request decides alone: an error status
    there, or no size there either, makes the probe fail, and otherwise its
    size and its range header are stored, those of the first answer being
    ignored. *)
Theorem get_file_info_fallback net dm r r' :
  net_head net = Ok r →
  response_ok r = false ∨ content_length r = None →
  net_get net = Ok r' →
  match content_length r' with
  | Some total =>
      if response_ok r'
      then get_file_info net dm =
           Ok (set_metadata total
                 (bool_decide (Py.lower (default EmptyString (accept_ranges_header r'))
                               = "bytes"%string)) dm)
      else get_file_info net dm
           = Raise (Wrapped "Failed to fetch file metadata: "
                            (RequestError "raise_for_status"))
  | None => ∃ e, get_file_info net dm = Raise e
  end.
Proof.
  intros Hhead Hbad Hget. unfold get_file_info. rewrite Hhead.
  assert (E : negb (response_ok r) || negb (bool_decide (is_Some (content_length r)))
              = true).
  { destruct Hbad as [-> | ->]; [done|]. simpl. apply orb_true_r. }
  rewrite E, Hget.
  destruct (content_length r') as [total|] eqn:Hlen;
    destruct (response_ok r'); rewrite ?Hlen; by eauto.
Qed.

Lemma get_file_info_fallback_witness :
  let r := mkResponse 405 None None in
  let r' := mkResponse 200 (Some 10000) (Some "bytes"%string) in
  let net := mkNetwork (Ok r) (Ok r') (λ _ _, Raise (RequestError "unused")) in
  let dm := init "http://host/file.bin" "file.bin" 4 8192 in
  get_file_info net dm = Ok (set_metadata 10000 true dm).
Proof.
  intros r r' net dm.
  exact (get_file_info_fallback net dm r r' eq_refl (or_introl eq_refl) eq_refl).
Defined.

(** X7.  When the probe raises, [start] reports "starting", then the error,
    and raises the probe's exception; no thread is spawned, the file system
    is as it was, and this stays so however the run is continued. *)
Theorem start_probe_failure net dm w e schedule :
  file_name dm ≠ EmptyString →
  get_file_info net (reset dm) = Raise e →
  let m := run net schedule (start net dm w) in
  coord m = MDone (Raise e) ∧ fetchers m = [] ∧ fs (outside m) = fs w ∧
  log (outside m) =
    log w ++ [Print (file_name dm)]
      ++ (if status_callback dm then [Status "starting"; StatusError e]
          else [PrintError "[!] Download error: " e]).
Proof.
  intros Hname Hprobe m.
  assert (Hstart : coord (start net dm w) = MDone (Raise e)
                   ∧ fetchers (start net dm w) = []
                   ∧ outside (start net dm w) =
                     start_failed (reset dm) e
                       (notify (reset dm) "starting" (emit (Print (file_name dm)) w))).
  { unfold start. rewrite bool_decide_eq_false_2 by done. by rewrite Hprobe. }
  destruct Hstart as (Hc & Hf & Hw).
  destruct (run_ended net schedule _ _ Hc Hf) as (Hc' & Hf' & Hw').
  subst m. rewrite Hc', Hf', Hw', Hw.
  split; [done|]. split; [done|].
  unfold start_failed, notify, reset; simpl.
  destruct (status_callback dm); simpl; rewrite <- ?app_assoc; done.
Qed.

Lemma start_probe_failure_witness :
  let net := mkNetwork (Raise (RequestError "timeout"))
                       (Ok (mkResponse 200 (Some 10000) (Some "bytes"%string)))
                       (λ _ _, Raise (RequestError "unused")) in
  let e := Wrapped "Failed to fetch file metadata: " (RequestError "timeout") in
  let m := run net [RunCoordinator] (start net (Scenario.manager 4) Scenario.nothing) in
  coord m = MDone (Raise e) ∧ fetchers m = [] ∧ fs (outside m) = ∅ ∧
  log (outside m) = [Print "file.bin"; Status "starting"; StatusError e].
Proof.
  intros net e.
  apply (start_probe_failure net (Scenario.manager 4) Scenario.nothing e
           [RunCoordinator]).
  - discriminate.
  - reflexivity.
Defined.

(** ** One fetcher running on its own *)

Lemma fetcher_steps_add net n1 : ∀ n2 s,
  fetcher_steps net (n1 + n2) s = fetcher_steps net n2 (fetcher_steps net n1 s).
Proof.
  induction n1 as [|n1 IH]; intros n2 [[f dm] w]; [done|].
  simpl. apply IH.
Qed.

Lemma set_downloaded_total_twice a b dm :
  set_downloaded_total b (set_downloaded_total a dm) = set_downloaded_total b dm.
Proof. done. Qed.

(** One pass of the block loop with neither flag set: the block is
    appended to the segment store and its length added to the counter. *)
Lemma fetch_block net f dm w b stream content :
  stop_event dm = false → pause_event dm = false →
  pc f = FIter (Ok b :: stream) →
  fs w !! part_file dm (Z.of_nat (thread_index f)) = Some content →
  ∃ n f' w',
    fetcher_steps net n (f, dm, w)
    = (f', set_downloaded_total (downloaded_total dm + Z.of_nat (length b)) dm, w') ∧
    pc f' = FIter stream ∧ thread_index f' = thread_index f ∧
    chunk_callback f' = chunk_callback f ∧
    fs w' = <[part_file dm (Z.of_nat (thread_index f)) := content ++ b]> (fs w).
Proof.
  intros Hstop Hpause Hpc Hstore.
  destruct f as [i cb p]; simpl in *; subst p.
  destruct dm as [u o nt cs ts ar fn st se pe dt pcb scb]; simpl in *; subst se pe.
  destruct b as [|x b].
  - exists 4%nat. eexists _, w. simpl. split.
    + unfold fetcher_step; simpl. do 2 f_equal. unfold set_downloaded_total; simpl.
      f_equal. lia.
    + split; [done|]. split; [done|]. split; [done|].
      rewrite app_nil_r. symmetry. by apply insert_id.
  - exists 7%nat. cbn. rewrite Hstore.
    destruct ((0 <? ts) && cb); eexists _, _; (split; [reflexivity|]); done.
Qed.

(** The block loop over a run of blocks with neither flag set. *)
Lemma fetch_blocks net blocks : ∀ f dm w tail content,
  stop_event dm = false → pause_event dm = false →
  pc f = FIter ((Ok <$> blocks) ++ tail) →
  fs w !! part_file dm (Z.of_nat (thread_index f)) = Some content →
  ∃ n f' w',
    fetcher_steps net n (f, dm, w)
    = (f', set_downloaded_total
             (downloaded_total dm + Z.of_nat (length (concat blocks))) dm, w') ∧
    pc f' = FIter tail ∧ thread_index f' = thread_index f ∧
    chunk_callback f' = chunk_callback f ∧
    fs w' = <[part_file dm (Z.of_nat (thread_index f)) := content ++ concat blocks]> (fs w).
Proof.
  induction blocks as [|b blocks IH]; intros f dm w tail content Hstop Hpause Hpc Hstore.
  - exists 0%nat, f, w. simpl. split; [|split; [done|]].
    + do 2 f_equal. destruct dm; unfold set_downloaded_total; simpl. f_equal. lia.
    + split; [done|]. split; [done|].
      rewrite app_nil_r. symmetry. by apply insert_id.
  - destruct (fetch_block net f dm w b ((Ok <$> blocks) ++ tail) content)
      as (n1 & f1 & w1 & Hrun1 & Hpc1 & Hi1 & Hcb1 & Hfs1); [done..|].
    set (dm1 := set_downloaded_total (downloaded_total dm + Z.of_nat (length b)) dm) in *.
    destruct (IH f1 dm1 w1 tail (content ++ b))
      as (n2 & f2 & w2 & Hrun2 & Hpc2 & Hi2 & Hcb2 & Hfs2); [done | done | done | |].
    { rewrite Hi1, Hfs1. apply lookup_insert_eq. }
    exists (n1 + n2)%nat, f2, w2.
    rewrite fetcher_steps_add, Hrun1, Hrun2.
    split; [|split; [done|]; split; [congruence|]; split; [congruence|]].
    + do 2 f_equal. unfold dm1. rewrite set_downloaded_total_twice.
      simpl. rewrite length_app. f_equal. simpl. lia.
    + rewrite Hfs2, Hfs1, Hi1. unfold dm1, part_file; simpl.
      rewrite insert_insert_eq. by rewrite <- app_assoc.
Qed.

Lemma store_status_ok i b dm :
  (i < length (thread_status dm))%nat →
  store_status i b dm = Ok (set_thread_status (<[i := b]> (thread_status dm)) dm).
Proof. intros H. unfold store_status. by rewrite bool_decide_eq_true_2. Qed.

(** From the request to the end of a run of blocks: the segment store is
    created anew and holds exactly these blocks. *)
Lemma fetch_prefix net f dm w first last code blocks tail :
  pc f = FRequest first last →
  net_get_range net first last = Ok (mkSegment code ((Ok <$> blocks) ++ tail)) →
  code = 200 ∨ code = 206 →
  stop_event dm = false → pause_event dm = false →
  ∃ n f' w',
    fetcher_steps net n (f, dm, w)
    = (f', set_downloaded_total
             (downloaded_total dm + Z.of_nat (length (concat blocks))) dm, w') ∧
    pc f' = FIter tail ∧ thread_index f' = thread_index f ∧
    chunk_callback f' = chunk_callback f ∧
    fs w' = <[part_file dm (Z.of_nat (thread_index f)) := concat blocks]> (fs w).
Proof.
  intros Hpc Hget Hcode Hstop Hpause.
  destruct f as [i cb p]; simpl in *; subst p.
  set (name := part_file dm (Z.of_nat i)).
  assert (Hopen : fetcher_steps net 2 (mkFetcher i cb (FRequest first last), dm, w)
                  = (mkFetcher i cb (FIter ((Ok <$> blocks) ++ tail)), dm,
                     set_fs (<[name := []]> (fs w)) w)).
  { assert (E : bool_decide (code = 200) || bool_decide (code = 206) = true).
    { destruct Hcode as [-> | ->]; [done|].
      rewrite (bool_decide_eq_true_2 (206 = 206)) by done. apply orb_true_r. }
    assert (Hreq : fetcher_step net (mkFetcher i cb (FRequest first last)) dm w
                   = (mkFetcher i cb (FOpen ((Ok <$> blocks) ++ tail)), dm, w)).
    { unfold fetcher_step; simpl. rewrite Hget; simpl. by rewrite E. }
    change (fetcher_steps net 2 (mkFetcher i cb (FRequest first last), dm, w))
      with (fetcher_steps net 1
              (fetcher_step net (mkFetcher i cb (FRequest first last)) dm w)).
    rewrite Hreq. done. }
  destruct (fetch_blocks net blocks (mkFetcher i cb (FIter ((Ok <$> blocks) ++ tail)))
              dm (set_fs (<[name := []]> (fs w)) w) tail [])
    as (n & f' & w' & Hrun & Hpc' & Hi & Hcb & Hfs); [done | done | done | |].
  { simpl. apply lookup_insert_eq. }
  exists (2 + n)%nat, f', w'. rewrite fetcher_steps_add, Hopen.
  split; [exact Hrun|]. split; [done|]. split; [done|]. split; [done|].
  rewrite Hfs. simpl. fold name. by rewrite insert_insert_eq.
Qed.

(** X8.  A fetcher that is neither stopped nor paused, whose request is
    answered with status 200 or 206 and whose stream yields its blocks
    without error, ends successfully: its segment store holds exactly the
    blocks received, in order, whatever it held before and whatever range was
    asked for; the counter has grown by their total length and the fetcher's
    own status is [True]. *)
Theorem fetcher_completes net f dm w first last code blocks :
  pc f = FRequest first last →
  net_get_range net first last = Ok (mkSegment code (Ok <$> blocks)) →
  code = 200 ∨ code = 206 →
  stop_event dm = false → pause_event dm = false →
  (thread_index f < length (thread_status dm))%nat →
  ∃ n f' w',
    fetcher_steps net n (f, dm, w)
    = (f', set_thread_status (<[thread_index f := true]> (thread_status dm))
             (set_downloaded_total
                (downloaded_total dm + Z.of_nat (length (concat blocks))) dm), w') ∧
    pc f' = FDead Succeeded ∧
    fs w' = <[part_file dm (Z.of_nat (thread_index f)) := concat blocks]> (fs w).
Proof.
  intros Hpc Hget Hcode Hstop Hpause Hidx.
  rewrite <- (app_nil_r (Ok <$> blocks)) in Hget.
  destruct (fetch_prefix net f dm w first last code blocks [] Hpc Hget Hcode Hstop Hpause)
    as (n & f1 & w1 & Hrun & Hpc1 & Hi & Hcb & Hfs).
  destruct f1 as [i1 cb1 p1]; simpl in *; subst p1 i1.
  exists (n + 1)%nat. eexists _, w1. rewrite fetcher_steps_add, Hrun.
  change (fetcher_steps net 1 ?s) with (let '(f, dm, w) := s in fetcher_step net f dm w).
  unfold fetcher_step; cbn [pc thread_index chunk_callback].
  unfold chunk_finished. rewrite store_status_ok by done.
  split; [reflexivity|]. done.
Qed.

Lemma fetcher_completes_witness :
  let net := Scenario.server [Ok Scenario.b1; Ok Scenario.b2] in
  let dm := set_thread_status [false] (set_metadata 4 true (Scenario.manager 1)) in
  let w := mkWorld {[ "file.bin.part0"%string := Scenario.b2 ]} [] in
  ∃ n f' w',
    fetcher_steps net n (mkFetcher 0 false (FRequest 0 3), dm, w)
    = (f', set_thread_status [true] (set_downloaded_total 4 dm), w') ∧
    pc f' = FDead Succeeded ∧
    fs w' = {[ "file.bin.part0"%string := Scenario.b1 ++ Scenario.b2 ]}.
Proof.
  intros net dm w.
  destruct (fetcher_completes net (mkFetcher 0 false (FRequest 0 3)) dm w 0 3 206
              [Scenario.b1; Scenario.b2])
    as (n & f' & w' & Hrun & Hpc & Hfs);
    [reflexivity | reflexivity | by right | reflexivity | reflexivity | simpl; lia |].
  exists n, f', w'. split; [exact Hrun|]. split; [exact Hpc|].
  rewrite Hfs. apply map_eq. intros p.
  destruct (decide (p = "file.bin.part0"%string)) as [-> | Hp].
  - by rewrite lookup_insert_eq, lookup_singleton_eq.
  - rewrite lookup_insert_ne by done. simpl. by rewrite !lookup_singleton_ne.
Defined.

(** X9.  When the stream breaks after some blocks, the fetcher dies with
    "Thread i failed: " followed by the cause and sets its own status to
    [False]; the blocks received before the error stay in its segment store
    and stay counted. *)
Theorem fetcher_stream_error net f dm w first last code blocks e rest :
  pc f = FRequest first last →
  net_get_range net first last
  = Ok (mkSegment code ((Ok <$> blocks) ++ Raise e :: rest)) →
  code = 200 ∨ code = 206 →
  stop_event dm = false → pause_event dm = false →
  (thread_index f < length (thread_status dm))%nat →
  ∃ n f' w',
    fetcher_steps net n (f, dm, w)
    = (f', set_thread_status (<[thread_index f := false]> (thread_status dm))
             (set_downloaded_total
                (downloaded_total dm + Z.of_nat (length (concat blocks))) dm), w') ∧
    pc f' = FDead (Died (Wrapped ("Thread " +:+ Py.str (Z.of_nat (thread_index f))
                                  +:+ " failed: ") e)) ∧
    fs w' = <[part_file dm (Z.of_nat (thread_index f)) := concat blocks]> (fs w).
Proof.
  intros Hpc Hget Hcode Hstop Hpause Hidx.
  destruct (fetch_prefix net f dm w first last code blocks (Raise e :: rest)
              Hpc Hget Hcode Hstop Hpause)
    as (n & f1 & w1 & Hrun & Hpc1 & Hi & Hcb & Hfs).
  destruct f1 as [i1 cb1 p1]; simpl in *; subst p1 i1.
  exists (n + 1)%nat. eexists _, w1. rewrite fetcher_steps_add, Hrun.
  change (fetcher_steps net 1 ?s) with (let '(f, dm, w) := s in fetcher_step net f dm w).
  unfold fetcher_step; cbn [pc thread_index chunk_callback].
  unfold chunk_failed. rewrite store_status_ok by done.
  split; [reflexivity|]. done.
Qed.

Lemma fetcher_stream_error_witness :
  let e := RequestError "connection reset" in
  let net := Scenario.server [Ok Scenario.b1; Raise e; Ok Scenario.b2] in
  let dm := set_thread_status [false] (set_metadata 4 true (Scenario.manager 1)) in
  ∃ n f' w',
    fetcher_steps net n (mkFetcher 0 false (FRequest 0 3), dm, Scenario.nothing)
    = (f', set_thread_status [false] (set_downloaded_total 2 dm), w') ∧
    pc f' = FDead (Died (Wrapped "Thread 0 failed: " e)) ∧
    fs w' = <["file.bin.part0"%string := Scenario.b1]> ∅.
Proof.
  intros e net dm.
  exact (fetcher_stream_error net (mkFetcher 0 false (FRequest 0 3)) dm
           Scenario.nothing 0 3 206 [Scenario.b1] e [Ok Scenario.b2]
           eq_refl eq_refl (or_intror eq_refl) eq_refl eq_refl
           (Nat.lt_0_succ 0)).
Defined.

(** ** The status list in a run *)

Lemma fetcher_step_status net f dm w :
  thread_status dm !! thread_index f = Some (succeeded f) →
  pc f ≠ FDead (Died IndexError) →
  let '(f', dm', w') := fetcher_step net f dm w in
  thread_index f' = thread_index f ∧
  thread_status dm' = <[thread_index f := succeeded f']> (thread_status dm) ∧
  pc f' ≠ FDead (Died IndexError).
Proof.
  intros Hst Hpc.
  assert (Hlt : (thread_index f < length (thread_status dm))%nat)
    by (by eapply lookup_lt_Some).
  assert (Hsame : thread_status dm
                  = <[thread_index f := false]> (thread_status dm)
                  ∨ succeeded f = true).
  { destruct (succeeded f); [by right|]. left. symmetry. by apply list_insert_id. }
  unfold fetcher_step, chunk_failed, chunk_finished.
  rewrite !store_status_ok by done.
  destruct f as [i cb p]; unfold succeeded in *; simpl in *.
  destruct p as [first last | stream | [|[b|e] stream] | b stream
                | b stream | [|x b] stream | b stream | loaded b stream
                | stream | o];
    repeat match goal with
           | |- context [net_get_range ?n ?a ?b] => destruct (net_get_range n a b)
           | |- context [bool_decide ?P || bool_decide ?Q] =>
               destruct (bool_decide P || bool_decide Q)
           | |- context [stop_event ?d] => destruct (stop_event d)
           | |- context [pause_event ?d] => destruct (pause_event d)
           | |- context [(0 <? ?t) && ?c] => destruct ((0 <? t) && c)
           end; simpl;
    try (destruct Hsame as [Hsame | Hsame]; [by rewrite <- Hsame | discriminate Hsame]);
    try done.
  (* a dead fetcher stays as it is *)
  destruct o as [| |e]; simpl in *;
    (split; [done|]; split; [|done]); symmetry; by apply list_insert_id.
Qed.

Lemma get_file_info_thread_status net dm dm' :
  get_file_info net dm = Ok dm' →
  thread_status dm' = thread_status dm ∧ num_threads dm' = num_threads dm.
Proof.
  unfold get_file_info. intros H.
  destruct (net_head net) as [r|]; [|discriminate H].
  destruct (negb (response_ok r) || negb (bool_decide (is_Some (content_length r)))).
  - destruct (net_get net) as [r'|]; [|discriminate H].
    destruct (response_ok r'); [|discriminate H].
    destruct (content_length r'); [|discriminate H]. by injection H as <-.
  - destruct (content_length r); [|discriminate H]. by injection H as <-.
Qed.

Lemma step_status_mirrors net a m :
  status_mirrors_fetchers m → status_mirrors_fetchers (step net a m).
Proof.
  intros [Hsome Hnone]. destruct a; simpl; try done.
  - destruct (fetchers m !! i) as [f|] eqn:Hf; [|done].
    destruct (Hsome i f Hf) as (Hi & Hst & Hpc). subst i.
    pose proof (fetcher_step_status net f (manager m) (outside m) Hst Hpc) as H.
    destruct (fetcher_step net f (manager m) (outside m)) as [[f' dm'] w'].
    destruct H as (Hi' & Hst' & Hpc').
    assert (Hlt1 : (thread_index f < length (fetchers m))%nat)
      by (by eapply lookup_lt_Some).
    assert (Hlt2 : (thread_index f < length (thread_status (manager m)))%nat)
      by (by eapply lookup_lt_Some).
    split; simpl.
    + intros j g Hg. destruct (decide (j = thread_index f)) as [-> | Hne].
      * rewrite list_lookup_insert_eq in Hg by done. injection Hg as <-.
        rewrite Hst'. by rewrite list_lookup_insert_eq.
      * rewrite list_lookup_insert_ne in Hg by done.
        rewrite Hst', list_lookup_insert_ne by done. by apply Hsome.
    + intros j Hj. destruct (decide (j = thread_index f)) as [-> | Hne].
      * by rewrite list_lookup_insert_eq in Hj.
      * rewrite list_lookup_insert_ne in Hj by done.
        rewrite Hst', list_lookup_insert_ne by done. by apply Hnone.
  - unfold coord_step.
    destruct (coord m);
      repeat match goal with
             | |- context [existsb ?f ?l] => destruct (existsb f l)
             | |- context [stop_event ?d] => destruct (stop_event d)
             | |- context [pause_event ?d] => destruct (pause_event d)
             | |- context [progress_callback ?d && ?c] =>
                 destruct (progress_callback d && c)
             | |- context [finish ?d ?w] => destruct (finish d w)
             end; done.
Qed.

Lemma run_status_mirrors net schedule : ∀ m,
  status_mirrors_fetchers m → status_mirrors_fetchers (run net schedule m).
Proof.
  induction schedule as [|a schedule IH]; intros m Hm; [done|].
  apply IH. by apply step_status_mirrors.
Qed.

Lemma no_fetcher_mirrors dm w c (n : nat) :
  thread_status dm = replicate n false →
  status_mirrors_fetchers (mkMachine dm w [] c).
Proof.
  intros Hst. split; simpl; [done|]. intros i _. rewrite Hst.
  intros H. apply lookup_replicate in H as [H _]. discriminate H.
Qed.

Lemma start_status_mirrors net dm w :
  file_name dm ≠ EmptyString → status_mirrors_fetchers (start net dm w).
Proof.
  intros Hname. unfold start. rewrite bool_decide_eq_false_2 by done.
  destruct (get_file_info net (reset dm)) as [dm'|e] eqn:Hprobe.
  2:{ by eapply no_fetcher_mirrors. }
  apply get_file_info_thread_status in Hprobe as [Hst Hn].
  simpl in Hst, Hn.
  destruct (accept_ranges dm') eqn:Hranges; simpl.
  2:{ by eapply no_fetcher_mirrors. }
  destruct (split_ranges dm') as [ranges|e] eqn:Hsplit.
  2:{ by eapply no_fetcher_mirrors. }
  assert (Hlen : (length ranges ≤ Z.to_nat (num_threads dm))%nat).
  { unfold split_ranges in Hsplit. rewrite Hranges in Hsplit. simpl in Hsplit.
    rewrite Hn in Hsplit.
    destruct (Z.eqb_spec (num_threads dm) 1) as [E | _].
    - injection Hsplit as <-. rewrite E. simpl. lia.
    - destruct (num_threads dm =? 0); [discriminate Hsplit|].
      injection Hsplit as <-. rewrite ranges_length. lia. }
  split; simpl.
  - intros i f Hf. rewrite list_lookup_imap in Hf.
    apply fmap_Some in Hf as (r & Hr & ->). simpl.
    split; [done|]. split; [|done].
    rewrite Hst. apply lookup_replicate. split; [done|].
    apply lookup_lt_Some in Hr. exact (Nat.lt_le_trans _ _ _ Hr Hlen).
  - intros i _. rewrite Hst.
    intros H. apply lookup_replicate in H as [H _]. discriminate H.
Qed.

(** X10.  In every run of [start] on a non-empty file name, an entry of
    [thread_status] is [True] exactly when the fetcher of that index has run
    to its last line; a fetcher that failed or returned on the stop flag
    leaves [False].  No fetcher ever dies on the store into the list: its
    index is always within it. *)
Theorem status_true_iff_succeeded net dm w schedule :
  file_name dm ≠ EmptyString →
  let m := run net schedule (start net dm w) in
  (∀ i : nat, thread_status (manager m) !! i = Some true ↔
              ∃ f, fetchers m !! i = Some f ∧ pc f = FDead Succeeded) ∧
  (∀ f, f ∈ fetchers m → pc f ≠ FDead (Died IndexError)).
Proof.
  intros Hname m.
  destruct (run_status_mirrors net schedule _ (start_status_mirrors net dm w Hname))
    as [Hsome Hnone].
  fold m in Hsome, Hnone. split.
  - intros i. split.
    + intros Htrue. destruct (fetchers m !! i) as [f|] eqn:Hf.
      * exists f. split; [done|].
        destruct (Hsome i f Hf) as (_ & Hst & _).
        rewrite Htrue in Hst. injection Hst as Hst. unfold succeeded in Hst.
        destruct (pc f) as [| | | | | | | | |[| |]]; done.
      * by apply Hnone in Hf.
    + intros (f & Hf & Hpc). destruct (Hsome i f Hf) as (_ & Hst & _).
      rewrite Hst. unfold succeeded. by rewrite Hpc.
  - intros f Hf. apply list_elem_of_lookup in Hf as [i Hf].
    by destruct (Hsome i f Hf) as (_ & _ & ?).
Qed.

Lemma status_true_iff_succeeded_witness :
  let net := Scenario.server [Ok Scenario.b1] in
  let m := run net (Scenario.steps 0 10 ++ [SetStop] ++ Scenario.steps 1 4)
               (start net (Scenario.manager 2) Scenario.nothing) in
  (pc <$> fetchers m) = [FDead Succeeded; FDead Returned] ∧
  thread_status (manager m) = [true; false] ∧
  (∀ i : nat, thread_status (manager m) !! i = Some true ↔
              ∃ f, fetchers m !! i = Some f ∧ pc f = FDead Succeeded) ∧
  (∀ f, f ∈ fetchers m → pc f ≠ FDead (Died IndexError)).
Proof.
  intros net m.
  split; [vm_compute; reflexivity|]. split; [vm_compute; reflexivity|].
  apply (status_true_iff_succeeded net (Scenario.manager 2) Scenario.nothing).
  discriminate.
Defined.

(** ** The end of a run *)

(** With every segment store in place the assembly copies them all, in
    index order, removes them and touches no other file. *)
Lemma combine_all_present dm (files : gmap string (list Byte.byte))
    (parts : list (list Byte.byte)) :
  chunk_size dm ≠ 0 →
  length parts = Z.to_nat (num_threads dm) →
  (∀ (i : nat) c, parts !! i = Some c →
                  files !! part_file dm (Z.of_nat i) = Some c) →
  ∃ files',
    combine_loop dm (Py.range (num_threads dm)) (<[file_name dm := []]> files)
    = (Ok tt, files') ∧
    files' !! file_name dm = Some (concat parts) ∧
    (∀ i : nat, (i < length parts)%nat → files' !! part_file dm (Z.of_nat i) = None) ∧
    (∀ p, p ≠ file_name dm →
          (∀ i : nat, (i < length parts)%nat → p ≠ part_file dm (Z.of_nat i)) →
          files' !! p = files !! p).
Proof.
  intros Hsize Hlen Hparts.
  assert (Hopen : ∀ i, <[file_name dm := []]> files !! part_file dm i
                       = files !! part_file dm i).
  { intros i. apply lookup_insert_ne. intros E. symmetry in E.
    by apply part_file_not_output in E. }
  destruct (combine_loop_spec dm Hsize (Z.to_nat (num_threads dm)) 0
              (<[file_name dm := []]> files) [])
    as (k & contents & Hk & Hlenc & Hsrc & Hloop); [apply lookup_insert_eq|].
  unfold Py.range.
  replace (seqZ 0 (num_threads dm))
    with (seqZ 0 (Z.of_nat (Z.to_nat (num_threads dm))))
    by (unfold seqZ; by rewrite Nat2Z.id).
  destruct (combine_loop dm (seqZ 0 (Z.of_nat (Z.to_nat (num_threads dm))))
              (<[file_name dm := []]> files)) as [r files'].
  destruct Hloop as (Hres & Hgone & Hframe & Hend). simpl in *.
  destruct (decide (k = Z.to_nat (num_threads dm))) as [-> | Hne].
  - assert (contents = parts) as ->.
    { apply list_eq_same_length with (Z.to_nat (num_threads dm)); [done..|].
      intros i c1 c2 Hi H1 H2.
      apply Hsrc in H1. apply Hparts in H2. rewrite Hopen in H1.
      rewrite Z.add_0_l in H1. congruence. }
    exists files'. subst r. rewrite Hlen.
    split; [done|]. split; [done|]. split; [done|].
    intros p Hp Hnot. rewrite Hframe by done. by apply lookup_insert_ne.
  - exfalso. destruct Hend as [_ Hmiss]. rewrite Hopen, Z.add_0_l in Hmiss.
    destruct (lookup_lt_is_Some_2 parts k) as [c Hc]; [lia|].
    apply Hparts in Hc. congruence.
Qed.

(** X11.  With a status callback attached, every status [True], a block
    size other than 0 and every segment store in place, the closing steps of
    [start] succeed: the output file is the stores put end to end in index
    order, the stores are gone, no other file is touched, and the callback
    is told "completed" twice, once by [_combine_chunks] and once by [start]. *)
Theorem finish_assembles dm w (parts : list (list Byte.byte)) :
  status_callback dm = true →
  forallb id (thread_status dm) = true →
  chunk_size dm ≠ 0 →
  length parts = Z.to_nat (num_threads dm) →
  (∀ (i : nat) c, parts !! i = Some c →
                  fs w !! part_file dm (Z.of_nat i) = Some c) →
  ∃ w', finish dm w = (Ok tt, w') ∧
        fs w' !! file_name dm = Some (concat parts) ∧
        (∀ i : nat, (i < length parts)%nat →
                    fs w' !! part_file dm (Z.of_nat i) = None) ∧
        (∀ p, p ≠ file_name dm →
              (∀ i : nat, (i < length parts)%nat → p ≠ part_file dm (Z.of_nat i)) →
              fs w' !! p = fs w !! p) ∧
        log w' = log w ++ [Status "completed"; Status "completed"].
Proof.
  intros Hcb Hst Hsize Hlen Hparts.
  destruct (combine_all_present dm (fs w) parts Hsize Hlen Hparts)
    as (files' & Hrun & Hout & Hgone & Hframe).
  unfold finish, combine_chunks. rewrite Hst, Hrun, Hcb.
  eexists. split; [reflexivity|]. simpl.
  split; [done|]. split; [done|]. split; [done|]. by rewrite <- app_assoc.
Qed.

Lemma finish_assembles_witness :
  let dm := set_thread_status [true; true] (Scenario.manager 2) in
  let w := mkWorld {[ "file.bin.part0"%string := Scenario.b1;
                      "file.bin.part1"%string := Scenario.b2 ]} [] in
  ∃ w', finish dm w = (Ok tt, w') ∧
        fs w' !! "file.bin"%string = Some (Scenario.b1 ++ Scenario.b2) ∧
        log w' = [Status "completed"; Status "completed"].
Proof.
  intros dm w.
  destruct (finish_assembles dm w [Scenario.b1; Scenario.b2])
    as (w' & Hrun & Hout & _ & _ & Hlog).
  - reflexivity.
  - reflexivity.
  - simpl. lia.
  - reflexivity.
  - intros [|[|i]] c Hc; simpl in Hc; [| |discriminate Hc];
      injection Hc as <-; vm_compute; reflexivity.
  - exists w'. split; [exact Hrun|]. split; [exact Hout | exact Hlog].
Defined.

(** X12.  Without a status callback the same closing steps raise
    [AttributeError]: the output file has been assembled in full and the
    segment stores removed, the success of the merge has been printed, and
    then the last [print] of [start] reads the missing attribute [filename],
    so the run is reported and raised as an error. *)
Theorem finish_without_callback_raises dm w (parts : list (list Byte.byte)) :
  status_callback dm = false →
  forallb id (thread_status dm) = true →
  chunk_size dm ≠ 0 →
  length parts = Z.to_nat (num_threads dm) →
  (∀ (i : nat) c, parts !! i = Some c →
                  fs w !! part_file dm (Z.of_nat i) = Some c) →
  ∃ w', finish dm w = (Raise (AttributeError "filename"), w') ∧
        fs w' !! file_name dm = Some (concat parts) ∧
        (∀ i : nat, (i < length parts)%nat →
                    fs w' !! part_file dm (Z.of_nat i) = None) ∧
        log w' = log w ++
                 [Print ("[+] File merge completed successfully → " +:+ file_name dm);
                  PrintError "[!] Download error: " (AttributeError "filename")].
Proof.
  intros Hcb Hst Hsize Hlen Hparts.
  destruct (combine_all_present dm (fs w) parts Hsize Hlen Hparts)
    as (files' & Hrun & Hout & Hgone & Hframe).
  unfold finish, combine_chunks, start_failed. rewrite Hst, Hrun, Hcb.
  eexists. split; [reflexivity|]. simpl.
  split; [done|]. split; [done|]. by rewrite <- app_assoc.
Qed.

Lemma finish_without_callback_raises_witness :
  let dm := set_thread_status [true]
              (init "http://host/file.bin" "file.bin" 1 8192) in
  let w := mkWorld {[ "file.bin.part0"%string := Scenario.b1 ]} [] in
  ∃ w', finish dm w = (Raise (AttributeError "filename"), w') ∧
        fs w' !! "file.bin"%string = Some Scenario.b1 ∧
        fs w' !! "file.bin.part0"%string = None.
Proof.
  intros dm w.
  destruct (finish_without_callback_raises dm w [Scenario.b1])
    as (w' & Hrun & Hout & Hgone & _).
  - reflexivity.
  - reflexivity.
  - simpl. lia.
  - reflexivity.
  - intros [|i] c Hc; simpl in Hc; [|discriminate Hc].
    injection Hc as <-. vm_compute. reflexivity.
  - exists w'. split; [exact Hrun|]. split.
    + exact Hout.
    + apply (Hgone 0%nat). simpl. lia.
Defined.

(** The assembly reads the file name and the block size of the object
    and nothing else of it. *)
Lemma combine_loop_reads dm1 dm2 indices :
  file_name dm1 = file_name dm2 → chunk_size dm1 = chunk_size dm2 →
  ∀ files, combine_loop dm1 indices files = combine_loop dm2 indices files.
Proof.
  intros Hname Hsize.
  induction indices as [|i indices IH]; intros files; [done|].
  rewrite !combine_loop_cons. unfold part_file. rewrite Hname, Hsize.
  destruct (files !! (file_name dm2 +:+ ".part" +:+ Py.str i)); [|done].
  apply IH.
Qed.

Lemma finish_ignores_flags dm w stop pause :
  finish (set_stop_event stop (set_pause_event pause dm)) w = finish dm w.
Proof.
  unfold finish, combine_chunks, start_failed.
  rewrite (combine_loop_reads (set_stop_event stop (set_pause_event pause dm)) dm)
    by done.
  done.
Qed.

(** X13.  Once no fetcher is alive the coordinator leaves the monitor loop
    without looking at the flags again: three steps take it through the
    joins to the outcome of the closing steps, and these do not depend on
    the stop and pause flags.  A stop requested after the last fetcher has
    exited does not stop the run. *)
Theorem stop_after_last_fetcher_ignored net m (stop pause : bool) :
  coord m = MAlive →
  existsb is_alive (fetchers m) = false →
  let m' := run net [RunCoordinator; RunCoordinator; RunCoordinator] m in
  coord m' = MDone (finish (manager m) (outside m)).1 ∧
  outside m' = (finish (manager m) (outside m)).2 ∧
  finish (set_stop_event stop (set_pause_event pause (manager m))) (outside m)
  = finish (manager m) (outside m).
Proof.
  intros Hc Hdead. destruct m as [dm w fl c]; simpl in *. subst c.
  change (run net [RunCoordinator; RunCoordinator; RunCoordinator]
            (mkMachine dm w fl MAlive))
    with (coord_step (coord_step (coord_step (mkMachine dm w fl MAlive)))).
  rewrite (coord_step_leave_loop (mkMachine dm w fl MAlive)) by done.
  cbn [manager outside fetchers coord].
  rewrite (coord_step_joined (mkMachine dm w fl MJoin)) by done.
  cbn [manager outside fetchers coord].
  unfold coord_step. cbn [manager outside fetchers coord].
  split; [|split].
  - by destruct (finish dm w).
  - by destruct (finish dm w).
  - apply finish_ignores_flags.
Qed.

Lemma stop_after_last_fetcher_ignored_witness :
  let net := Scenario.server [Ok Scenario.b1; Ok Scenario.b2] in
  let m := run net (Scenario.steps 0 17 ++ [SetStop])
               (start net (Scenario.manager 1) Scenario.nothing) in
  let m' := run net [RunCoordinator; RunCoordinator; RunCoordinator] m in
  stop_event (manager m) = true ∧
  coord m' = MDone (Ok tt) ∧
  fs (outside m') !! "file.bin"%string = Some (Scenario.b1 ++ Scenario.b2).
Proof.
  intros net m m'.
  destruct (stop_after_last_fetcher_ignored net m true false) as (Hc & Hw & _).
  - vm_compute. reflexivity.
  - vm_compute. reflexivity.
  - split; [vm_compute; reflexivity|]. fold m' in Hc, Hw. split.
    + rewrite Hc. vm_compute. reflexivity.
    + rewrite Hw. vm_compute. reflexivity.
Defined.

(** ** What one step of a fetcher can touch *)

(** X14.  A step of a fetcher changes no file but its own segment store,
    which is neither the output file nor the store of another index; it
    changes no entry of the status list but its own, and neither flag, the
    total size nor the names. *)
Theorem fetcher_step_frame net f dm w :
  let '(f', dm', w') := fetcher_step net f dm w in
  let own := part_file dm (Z.of_nat (thread_index f)) in
  (∀ p, p ≠ own → fs w' !! p = fs w !! p) ∧
  own ≠ file_name dm ∧
  (∀ j : nat, j ≠ thread_index f → own ≠ part_file dm (Z.of_nat j)) ∧
  (∀ j : nat, j ≠ thread_index f →
              thread_status dm' !! j = thread_status dm !! j) ∧
  stop_event dm' = stop_event dm ∧ pause_event dm' = pause_event dm ∧
  total_size dm' = total_size dm ∧ file_name dm' = file_name dm.
Proof.
  assert (Hnames :
    part_file dm (Z.of_nat (thread_index f)) ≠ file_name dm ∧
    (∀ j : nat, j ≠ thread_index f →
       part_file dm (Z.of_nat (thread_index f)) ≠ part_file dm (Z.of_nat j))).
  { split; [apply part_file_not_output|].
    intros j Hj E. apply part_file_inj in E. lia. }
  destruct Hnames as [Hout Hother].
  unfold fetcher_step, chunk_failed, chunk_finished, store_status.
  destruct f as [i cb p]; simpl in *.
  destruct p as [first last | stream | [|[b|e] stream] | b stream
                | b stream | [|x b] stream | b stream | loaded b stream
                | stream | o];
    repeat match goal with
           | |- context [net_get_range ?n ?a ?b] => destruct (net_get_range n a b)
           | |- context [if ?c then _ else _] => destruct c eqn:?
           end; simpl;
    repeat split; try done;
    try (intros j Hj; by apply list_lookup_insert_ne);
    try (intros p Hp; by apply lookup_insert_ne).
Qed.

(** ** Stopping a fetcher that is not paused *)

(** X15.  With the stop flag set and the pause flag clear, a fetcher
    anywhere in its block loop is dead after seven steps of its own.  On the
    way it writes at most the one block it has already taken past the stop
    test: its segment store grows by that block if it holds one that is not
    empty, and is left as it is otherwise; no other file changes. *)
Theorem stop_ends_fetcher net f dm w :
  in_block_loop (pc f) = true →
  stop_event dm = true → pause_event dm = false →
  let '(f', dm', w') := fetcher_steps net 7 (f, dm, w) in
  let own := part_file dm (Z.of_nat (thread_index f)) in
  is_alive f' = false ∧
  fs w' = match in_hand (pc f) with
          | [] => fs w
          | b => <[own := default [] (fs w !! own) ++ b]> (fs w)
          end.
Proof.
  intros Hloop Hstop Hpause.
  destruct f as [i cb p]; simpl in *.
  destruct dm as [u o nt cs ts ar fn st se pe dt pcb scb]; simpl in *; subst se pe.
  destruct p as [first last | stream | [|[b|e] stream] | b stream
                | b [|[b'|e] stream] | [|x b] [|[b'|e] stream] | b [|[b'|e] stream]
                | loaded b [|[b'|e] stream]
                | [|[b'|e] stream] | out]; try discriminate Hloop;
    repeat first
      [ progress cbn
      | progress unfold chunk_failed, chunk_finished, store_status
      | match goal with
        | |- context [bool_decide ?P] => destruct (bool_decide P)
        | |- context [(0 <? ?t) && ?c] => destruct ((0 <? t) && c)
        | |- context [match ?b with [] => _ | _ :: _ => _ end] => destruct b
        end ];
    done.
Qed.

Lemma stop_ends_fetcher_witness :
  let net := Scenario.server [] in
  let dm := set_stop_event true (set_thread_status [false] (Scenario.manager 1)) in
  let w := mkWorld {[ "file.bin.part0"%string := Scenario.b1 ]} [] in
  let f := mkFetcher 0 false (FPauseCheck Scenario.b2 [Ok Scenario.b1]) in
  let '(f', dm', w') := fetcher_steps net 7 (f, dm, w) in
  pc f' = FDead Returned ∧
  fs w' = <["file.bin.part0"%string := Scenario.b1 ++ Scenario.b2]> (fs w).
Proof.
  pose proof (stop_ends_fetcher (Scenario.server [])
                (mkFetcher 0 false (FPauseCheck Scenario.b2 [Ok Scenario.b1]))
                (set_stop_event true (set_thread_status [false] (Scenario.manager 1)))
                (mkWorld {[ "file.bin.part0"%string := Scenario.b1 ]} [])
                eq_refl eq_refl eq_refl) as H.
  cbv zeta.
  destruct (fetcher_steps (Scenario.server []) 7 _) as [[f' dm'] w'] eqn:E.
  destruct H as [_ Hfs]. split.
  - vm_compute in E. by injection E as <- _ _.
  - rewrite Hfs. vm_compute. reflexivity.
Defined.

(** ** The range of the percent *)

Section Percent.

Local Open Scope Q_scope.







End Percent.

(** ** A whole download, one fetcher after another *)

Lemma concat_slices data : ∀ rs lo hi,
  0 ≤ lo → chained lo rs hi →
  concat (slice data <$> rs)
  = take (Z.to_nat (hi + 1 - lo)) (drop (Z.to_nat lo) data).
Proof.
  induction rs as [|r rs IH]; intros lo hi Hlo Hch; cbn [chained] in Hch.
  - subst lo. by rewrite Z.sub_diag.
  - destruct Hch as (Hr1 & Hr2 & Hch). rewrite fmap_cons. cbn [concat].
    assert (r.2 + 1 ≤ hi + 1).
    { clear IH Hr1 Hr2. revert Hch. generalize (r.2 + 1). clear.
      induction rs as [|r' rs IH]; intros z Hch; simpl in *; [lia|].
      destruct Hch as (E & Hle & Hch). apply IH in Hch. lia. }
    rewrite (IH (r.2 + 1) hi) by (lia || done).
    unfold slice. rewrite Hr1.
    replace (Z.to_nat (r.2 + 1)) with (Z.to_nat lo + Z.to_nat (r.2 - lo + 1))%nat by lia.
    rewrite <- drop_drop, take_take_drop. f_equal. lia.
Qed.

Lemma planned_ranges_chained total n :
  0 < total → 1 ≤ n → ∀ (len : nat) (j : Z),
  0 ≤ j → j + Z.of_nat (S len) = n →
  chained (j * (total `div` n))
          (nth_range total n (total `div` n) <$> seqZ j (Z.of_nat (S len)))
          (total - 1).
Proof.
  intros Htotal Hn.
  pose proof (chunk_bounds total n Htotal Hn) as (Hc & Hlo & Hhi).
  induction len as [|len IH]; intros j Hj Hsum;
    rewrite seqZ_cons by lia; rewrite Nat2Z.inj_succ, Z.pred_succ;
    rewrite fmap_cons; cbn [chained]; unfold nth_range at 1 2 3; simpl.
  - destruct (Z.ltb_spec j (n - 1)) as [Hin | Hlast]; [lia|].
    split; [done|]. split; [nia | done].
  - destruct (Z.ltb_spec j (n - 1)) as [Hin | Hlast]; [|lia].
    split; [done|]. split; [lia|].
    replace (j * (total `div` n) + total `div` n - 1 + 1)
      with (Z.succ j * (total `div` n)) by lia.
    apply IH; lia.
Qed.

Lemma split_ranges_chained dm rs :
  0 < total_size dm → 1 ≤ num_threads dm → accept_ranges dm = true →
  split_ranges dm = Ok rs →
  chained 0 rs (total_size dm - 1) ∧ length rs = Z.to_nat (num_threads dm).
Proof.
  intros Htotal Hn Hacc. unfold split_ranges. rewrite Hacc. simpl.
  destruct (Z.eqb_spec (num_threads dm) 1) as [E | _].
  - intros [= <-]. rewrite E. simpl. split; [|done]. split; [done|]. split; lia.
  - destruct (Z.eqb_spec (num_threads dm) 0); [lia|]. intros [= <-].
    split; [|apply ranges_length].
    pose proof (planned_ranges_chained (total_size dm) (num_threads dm) Htotal Hn
                  (Z.to_nat (num_threads dm - 1)) 0 ltac:(lia) ltac:(lia)) as H.
    replace (Z.of_nat (S (Z.to_nat (num_threads dm - 1))))
      with (num_threads dm) in H by lia.
    exact H.
Qed.

Lemma run_app net l1 l2 m : run net (l1 ++ l2) m = run net l2 (run net l1 m).
Proof. unfold run. apply foldl_app. Qed.

(** Steps of one fetcher in a row, in the machine and on its own. *)
Lemma run_fetcher_steps net i : ∀ n m f,
  fetchers m !! i = Some f →
  run net (Scenario.steps i n) m =
  let '(f', dm', w') := fetcher_steps net n (f, manager m, outside m) in
  mkMachine dm' w' (<[i := f']> (fetchers m)) (coord m).
Proof.
  induction n as [|n IH]; intros m f Hf.
  - destruct m as [dm w fl c]; simpl in *. f_equal. symmetry. by apply list_insert_id.
  - change (run net (Scenario.steps i (S n)) m)
      with (run net (Scenario.steps i n) (step net (RunFetcher i) m)).
    change (fetcher_steps net (S n) (f, manager m, outside m))
      with (fetcher_steps net n (fetcher_step net f (manager m) (outside m))).
    simpl step. rewrite Hf.
    destruct (fetcher_step net f (manager m) (outside m)) as [[f1 dm1] w1].
    assert (Hlt : (i < length (fetchers m))%nat) by (by eapply lookup_lt_Some).
    rewrite (IH _ f1) by (simpl; by apply list_lookup_insert_eq).
    simpl. destruct (fetcher_steps net n (f1, dm1, w1)) as [[f' dm'] w'].
    by rewrite list_insert_insert_eq.
Qed.

Lemma fetch_whole net f dm w first last blocks :
  pc f = FRequest first last →
  net_get_range net first last = Ok (mkSegment 206 (Ok <$> blocks)) →
  stop_event dm = false → pause_event dm = false →
  (thread_index f < length (thread_status dm))%nat →
  ∃ n f' w',
    fetcher_steps net n (f, dm, w)
    = (f', set_thread_status (<[thread_index f := true]> (thread_status dm))
             (set_downloaded_total
                (downloaded_total dm + Z.of_nat (length (concat blocks))) dm), w') ∧
    pc f' = FDead Succeeded ∧
    fs w' = <[part_file dm (Z.of_nat (thread_index f)) := concat blocks]> (fs w).
Proof.
  intros Hpc Hget Hstop Hpause Hidx.
  rewrite <- (app_nil_r (Ok <$> blocks)) in Hget.
  destruct (fetch_prefix net f dm w first last 206 blocks [] Hpc Hget
              (or_intror eq_refl) Hstop Hpause)
    as (n & f1 & w1 & Hrun & Hpc1 & Hi & Hcb & Hfs).
  destruct f1 as [i1 cb1 p1]; simpl in *; subst p1 i1.
  exists (n + 1)%nat. eexists _, w1. rewrite fetcher_steps_add, Hrun.
  change (fetcher_steps net 1 ?s) with (let '(f, dm, w) := s in fetcher_step net f dm w).
  unfold fetcher_step; cbn [pc thread_index chunk_callback].
  unfold chunk_finished. rewrite store_status_ok by done.
  split; [reflexivity|]. done.
Qed.

(** The fetchers of a fresh run, taken in turn: after the first [k] have
    run to their end, their statuses are [True], their stores hold their
    slices and the counter holds the bytes so far. *)
Lemma fetch_phase net data dm0 w0 (ranges : list byte_range) :
  stop_event dm0 = false → pause_event dm0 = false →
  length (thread_status dm0) = length ranges →
  (∀ first last, ∃ blocks,
      net_get_range net first last = Ok (mkSegment 206 (Ok <$> blocks)) ∧
      concat blocks = slice data (first, last)) →
  let spawned := imap (λ i r, mkFetcher i false (FRequest r.1 r.2)) ranges in
  ∀ k : nat, (k ≤ length ranges)%nat →
  ∃ counts st w' fl,
    length counts = k ∧
    run net (concat (imap Scenario.steps counts)) (mkMachine dm0 w0 spawned MAlive)
    = mkMachine
        (set_thread_status st
           (set_downloaded_total
              (downloaded_total dm0
               + Z.of_nat (length (concat (slice data <$> take k ranges)))) dm0))
        w' fl MAlive ∧
    length st = length ranges ∧
    (∀ j : nat, (j < k)%nat → st !! j = Some true) ∧
    length fl = length ranges ∧
    (∀ (j : nat) f, (j < k)%nat → fl !! j = Some f → is_alive f = false) ∧
    (∀ j : nat, (k ≤ j)%nat → fl !! j = spawned !! j) ∧
    (∀ (j : nat) r, (j < k)%nat → ranges !! j = Some r →
                    fs w' !! part_file dm0 (Z.of_nat j) = Some (slice data r)).
Proof.
  intros Hstop Hpause Hlen Hserve spawned.
  induction k as [|k IH]; intros Hk.
  - exists [], (thread_status dm0), w0, spawned. simpl.
    split; [done|]. split.
    { unfold run; simpl. f_equal. destruct dm0; simpl.
      unfold set_thread_status, set_downloaded_total; simpl. f_equal. lia. }
    split; [done|]. split; [lia|]. split; [unfold spawned; by rewrite length_imap|].
    split; [lia|]. split; [done | lia].
  - destruct IH as (counts & st & w' & fl & Hcounts & Hrun & Hst & Htrue
                    & Hfl & Hdead & Hrest & Hstores); [lia|].
    destruct (lookup_lt_is_Some_2 ranges k) as [r Hr]; [lia|].
    assert (Hf : fl !! k = Some (mkFetcher k false (FRequest r.1 r.2))).
    { rewrite Hrest by lia. unfold spawned. rewrite list_lookup_imap.
      apply fmap_Some. by exists r. }
    destruct (Hserve r.1 r.2) as (blocks & Hget & Hblocks).
    replace (r.1, r.2) with r in Hblocks by (by destruct r).
    set (c := downloaded_total dm0
              + Z.of_nat (length (concat (slice data <$> take k ranges)))) in *.
    set (dmk := set_thread_status st (set_downloaded_total c dm0)) in *.
    destruct (fetch_whole net (mkFetcher k false (FRequest r.1 r.2)) dmk w'
                r.1 r.2 blocks)
      as (n & f' & w'' & Hsteps & Hpc & Hfs); [done | done | done | done | |].
    { simpl. rewrite Hst. lia. }
    simpl in Hsteps, Hfs.
    exists (counts ++ [n]), (<[k := true]> st), w'', (<[k := f']> fl).
    split; [rewrite length_app; simpl; lia|]. split.
    { rewrite imap_app, concat_app, run_app, Hrun. simpl.
      rewrite Hcounts, Nat.add_0_r, app_nil_r.
      rewrite (run_fetcher_steps net k n (mkMachine dmk w' fl MAlive) _ Hf).
      simpl. rewrite Hsteps.
      f_equal. unfold dmk, set_thread_status, set_downloaded_total; simpl.
      f_equal. unfold c.
      rewrite (take_S_r ranges k r Hr), fmap_app, concat_app, length_app.
      simpl. rewrite app_nil_r, Hblocks. lia. }
    split; [by rewrite length_insert|]. split.
    { intros j Hj. destruct (decide (j = k)) as [-> | Hne].
      - apply list_lookup_insert_eq. lia.
      - rewrite list_lookup_insert_ne by done. apply Htrue. lia. }
    split; [by rewrite length_insert|]. split.
    { intros j g Hj Hg. destruct (decide (j = k)) as [-> | Hne].
      - rewrite list_lookup_insert_eq in Hg by lia. injection Hg as <-.
        unfold is_alive. by rewrite Hpc.
      - rewrite list_lookup_insert_ne in Hg by done. apply (Hdead j); [lia | done]. }
    split.
    { intros j Hj. rewrite list_lookup_insert_ne by lia. apply Hrest. lia. }
    intros j r' Hj Hr'. rewrite Hfs.
    change (part_file dmk (Z.of_nat k)) with (part_file dm0 (Z.of_nat k)).
    destruct (decide (j = k)) as [-> | Hne].
    + rewrite lookup_insert_eq. congruence.
    + rewrite lookup_insert_ne by (intros E; apply part_file_inj in E; lia).
      apply Hstores; [lia | done].
Qed.

Lemma existsb_alive_false (fl : list fetcher) :
  (∀ (j : nat) f, fl !! j = Some f → is_alive f = false) →
  existsb is_alive fl = false.
Proof.
  induction fl as [|f fl IH]; intros H; [done|]. simpl.
  rewrite (H 0%nat f) by done. apply IH. intros j g Hg. by apply (H (S j)).
Qed.

Lemma forallb_id_true (st : list bool) :
  (∀ j : nat, (j < length st)%nat → st !! j = Some true) → forallb id st = true.
Proof.
  induction st as [|b st IH]; intros H; [done|]. simpl.
  assert (b = true) as -> by (specialize (H 0%nat ltac:(simpl; lia)); by injection H).
  apply IH. intros j Hj. apply (H (S j)). simpl. lia.
Qed.

(** X17.  A whole download.  Against a server that holds a non-empty
    resource, gives its size, advertises byte ranges and answers every range
    request with exactly the bytes asked for, a run of [start] with a
    status callback, at least one worker and a non-empty file name ends
    successfully when the fetchers run one after another: the output file
    is the resource, byte for byte, every segment store has been removed and
    the counter equals the size of the resource. *)
Theorem sequential_run_downloads net dm w data :
  file_name dm ≠ EmptyString → status_callback dm = true →
  1 ≤ num_threads dm → chunk_size dm ≠ 0 →
  data ≠ [] → serves net data →
  ∃ counts,
    let m := run net (one_after_another counts) (start net dm w) in
    length counts = Z.to_nat (num_threads dm) ∧
    coord m = MDone (Ok tt) ∧
    fs (outside m) !! file_name dm = Some data ∧
    (∀ i : nat, (i < Z.to_nat (num_threads dm))%nat →
                fs (outside m) !! part_file dm (Z.of_nat i) = None) ∧
    downloaded_total (manager m) = Z.of_nat (length data).
Proof.
  intros Hname Hcb Hn Hsize Hdata [(r & h & Hhead & Hok & Hlen & Hhdr & Hbytes) Hserve].
  set (dm0 := set_metadata (Z.of_nat (length data)) true (reset dm)).
  assert (Hprobe : get_file_info net (reset dm) = Ok dm0).
  { unfold get_file_info. rewrite Hhead. cbv beta iota. rewrite Hok, Hlen.
    rewrite bool_decide_eq_true_2 by eauto. simpl. rewrite Hlen, Hhdr. simpl.
    by rewrite bool_decide_eq_true_2. }
  assert (Htotal : 0 < total_size dm0).
  { simpl. destruct data; [done|]. simpl. lia. }
  destruct (split_ranges dm0) as [ranges|e] eqn:Hsplit.
  2:{ exfalso. unfold split_ranges in Hsplit. simpl in Hsplit.
      destruct (num_threads dm =? 1); [discriminate Hsplit|].
      destruct (Z.eqb_spec (num_threads dm) 0); [lia | discriminate Hsplit]. }
  destruct (split_ranges_chained dm0 ranges Htotal Hn eq_refl Hsplit)
    as [Hchain Hranges].
  simpl in Hranges.
  set (w0 := notify dm0 "downloading"
               (notify (reset dm) "starting" (emit (Print (file_name dm)) w))).
  assert (Hstart : start net dm w
                   = mkMachine dm0 w0
                       (imap (λ i r, mkFetcher i false (FRequest r.1 r.2)) ranges)
                       MAlive).
  { unfold start. rewrite bool_decide_eq_false_2 by done.
    rewrite Hprobe. simpl accept_ranges. cbv iota. simpl negb. cbv iota.
    by rewrite Hsplit. }
  destruct (fetch_phase net data dm0 w0 ranges eq_refl eq_refl) with (k := length ranges)
    as (counts & st & w' & fl & Hcounts & Hrun & Hst & Htrue
        & Hfl & Hdead & _ & Hstores);
    [simpl; by rewrite length_replicate | done | done |].
  rewrite firstn_all in Hrun.
  assert (Hconcat : concat (slice data <$> ranges) = data).
  { rewrite (concat_slices data ranges 0 (total_size dm0 - 1)) by (done || lia).
    simpl. rewrite drop_0. apply take_ge. lia. }
  rewrite Hconcat in Hrun. simpl in Hrun. rewrite Z.add_0_l in Hrun.
  set (dmn := set_thread_status st
                (set_downloaded_total (Z.of_nat (length data)) dm0)) in *.
  assert (Halive : existsb is_alive fl = false).
  { apply existsb_alive_false. intros j f Hf. apply (Hdead j); [|done].
    apply lookup_lt_Some in Hf. lia. }
  assert (Hall : forallb id (thread_status dmn) = true).
  { apply forallb_id_true. simpl. intros j Hj. apply Htrue. lia. }
  destruct (combine_all_present dmn (fs w') (slice data <$> ranges))
    as (files' & Hcombine & Hout & Hgone & _).
  { done. }
  { rewrite length_fmap. simpl. lia. }
  { intros i c Hc. rewrite list_lookup_fmap in Hc.
    apply fmap_Some in Hc as (r' & Hr' & ->).
    apply (Hstores i r'); [|done]. apply lookup_lt_Some in Hr'. lia. }
  exists counts. cbv zeta. unfold one_after_another.
  rewrite run_app, Hstart, Hrun.
  change (run net (replicate 3 RunCoordinator) ?m)
    with (coord_step (coord_step (coord_step m))).
  rewrite (coord_step_leave_loop (mkMachine dmn w' fl MAlive)) by done.
  cbn [manager outside fetchers coord].
  rewrite (coord_step_joined (mkMachine dmn w' fl MJoin)) by done.
  cbn [manager outside fetchers coord].
  unfold coord_step. cbn [manager outside fetchers coord].
  unfold finish, combine_chunks. rewrite Hall, Hcombine.
  change (status_callback dmn) with (status_callback dm). rewrite Hcb.
  cbn [manager outside fetchers coord].
  split; [lia|]. split; [done|]. split.
  { simpl. change (file_name dmn) with (file_name dm) in Hout.
    by rewrite Hout, Hconcat. }
  split; [|done].
  intros i Hi. simpl.
  change (part_file dm (Z.of_nat i)) with (part_file dmn (Z.of_nat i)).
  apply Hgone. rewrite length_fmap. lia.
Qed.

Lemma sequential_run_downloads_witness :
  let data := Scenario.b1 ++ Scenario.b2 in
  let net :=
    mkNetwork (Ok (mkResponse 200 (Some 4) (Some "bytes"%string)))
              (Raise (RequestError "unused"))
              (λ first last, Ok (mkSegment 206 [Ok (slice data (first, last))])) in
  ∃ counts,
    let m := run net (one_after_another counts)
                 (start net (Scenario.manager 2) Scenario.nothing) in
    length counts = 2%nat ∧
    coord m = MDone (Ok tt) ∧
    fs (outside m) !! "file.bin"%string = Some data ∧
    (∀ i : nat, (i < 2)%nat →
                fs (outside m) !! part_file (Scenario.manager 2) (Z.of_nat i) = None) ∧
    downloaded_total (manager m) = 4.
Proof.
  intros data net.
  apply (sequential_run_downloads net (Scenario.manager 2) Scenario.nothing data).
  - discriminate.
  - reflexivity.
  - simpl. lia.
  - simpl. lia.
  - discriminate.
  - split.
    + exists (mkResponse 200 (Some 4) (Some "bytes"%string)), "bytes"%string.
      repeat split; reflexivity.
    + intros first last. exists [slice data (first, last)]. split; [done|].
      simpl. apply app_nil_r.
Defined.

(** ** Pause and resume *)

(** A fetcher past its pause test, with neither flag set, writes the block
    it holds and comes back to the head of the loop. *)
Lemma resume_block net f dm w b stream content :
  stop_event dm = false → pause_event dm = false →
  pc f = FPauseCheck b stream →
  fs w !! part_file dm (Z.of_nat (thread_index f)) = Some content →
  ∃ n f' w',
    fetcher_steps net n (f, dm, w)
    = (f', set_downloaded_total (downloaded_total dm + Z.of_nat (length b)) dm, w') ∧
    pc f' = FIter stream ∧ thread_index f' = thread_index f ∧
    chunk_callback f' = chunk_callback f ∧
    fs w' = <[part_file dm (Z.of_nat (thread_index f)) := content ++ b]> (fs w).
Proof.
  intros Hstop Hpause Hpc Hstore.
  destruct f as [i cb p]; simpl in *; subst p.
  destruct dm as [u o nt cs ts ar fn st se pe dt pcb scb]; simpl in *; subst se pe.
  destruct b as [|x b].
  - exists 2%nat. eexists _, w. simpl. split.
    + unfold fetcher_step; simpl. do 2 f_equal. unfold set_downloaded_total; simpl.
      f_equal. lia.
    + split; [done|]. split; [done|]. split; [done|].
      rewrite app_nil_r. symmetry. by apply insert_id.
  - exists 5%nat. cbn. rewrite Hstore.
    destruct ((0 <? ts) && cb); eexists _, _; (split; [reflexivity|]); done.
Qed.

(** X18.  Pausing loses nothing.  A fetcher that holds a block in its
    pause loop stays exactly where it is for as long as the pause flag is
    set, and once the flag is cleared it goes on from there: if the stop flag
    is not set and the rest of its stream arrives without error, it ends
    successfully with the block it held and all later blocks appended to its
    store and added to the counter. *)
Theorem pause_then_resume net f dm w b blocks content :
  pc f = FPauseCheck b (Ok <$> blocks) →
  pause_event dm = true → stop_event dm = false →
  fs w !! part_file dm (Z.of_nat (thread_index f)) = Some content →
  (thread_index f < length (thread_status dm))%nat →
  (∀ k, fetcher_steps net k (f, dm, w) = (f, dm, w)) ∧
  ∃ n f' w',
    fetcher_steps net n (f, set_pause_event false dm, w)
    = (f', set_thread_status (<[thread_index f := true]> (thread_status dm))
             (set_downloaded_total
                (downloaded_total dm + Z.of_nat (length (b ++ concat blocks)))
                (set_pause_event false dm)), w') ∧
    pc f' = FDead Succeeded ∧
    fs w' = <[part_file dm (Z.of_nat (thread_index f))
              := content ++ b ++ concat blocks]> (fs w).
Proof.
  intros Hpc Hpause Hstop Hstore Hidx. split.
  - induction k as [|k IH]; [done|].
    change (fetcher_steps net (S k) (f, dm, w))
      with (fetcher_steps net k (fetcher_step net f dm w)).
    assert (Hspin : fetcher_step net f dm w = (f, dm, w)).
    { destruct f as [i cb p]; simpl in *; subst p.
      unfold fetcher_step; simpl. by rewrite Hpause. }
    by rewrite Hspin.
  - set (dm1 := set_pause_event false dm).
    destruct (resume_block net f dm1 w b (Ok <$> blocks) content)
      as (n1 & f1 & w1 & Hrun1 & Hpc1 & Hi1 & Hcb1 & Hfs1); [done..|].
    set (dm2 := set_downloaded_total (downloaded_total dm1 + Z.of_nat (length b)) dm1)
      in *.
    rewrite <- (app_nil_r (Ok <$> blocks)) in Hpc1.
    destruct (fetch_blocks net blocks f1 dm2 w1 [] (content ++ b))
      as (n2 & f2 & w2 & Hrun2 & Hpc2 & Hi2 & Hcb2 & Hfs2); [done | done | done | |].
    { rewrite Hi1, Hfs1. apply lookup_insert_eq. }
    destruct f2 as [i2 cb2 p2]; simpl in *; subst p2.
    exists (n1 + (n2 + 1))%nat. eexists _, w2.
    rewrite fetcher_steps_add, Hrun1, fetcher_steps_add, Hrun2.
    change (fetcher_steps net 1 ?s)
      with (let '(f, dm, w) := s in fetcher_step net f dm w).
    unfold fetcher_step; cbn [pc thread_index chunk_callback].
    unfold chunk_finished. rewrite store_status_ok by (simpl; lia).
    split.
    + rewrite Hi2, Hi1. do 2 f_equal.
      unfold dm2, dm1, set_thread_status, set_downloaded_total, set_pause_event; simpl.
      f_equal. rewrite length_app. lia.
    + split; [done|]. rewrite Hfs2, Hfs1, Hi1.
      change (part_file dm2 ?i) with (part_file dm i).
      change (part_file dm1 ?i) with (part_file dm i).
      rewrite insert_insert_eq. by rewrite <- app_assoc.
Qed.

Lemma pause_then_resume_witness :
  let net := Scenario.server [] in
  let dm := set_pause_event true (set_thread_status [false] (Scenario.manager 1)) in
  let w := mkWorld {[ "file.bin.part0"%string := Scenario.b1 ]} [] in
  let f := mkFetcher 0 false (FPauseCheck Scenario.b2 [Ok Scenario.b1]) in
  (∀ k, fetcher_steps net k (f, dm, w) = (f, dm, w)) ∧
  ∃ n f' w',
    fetcher_steps net n (f, set_pause_event false dm, w)
    = (f', set_thread_status [true]
             (set_downloaded_total 4 (set_pause_event false dm)), w') ∧
    pc f' = FDead Succeeded ∧
    fs w' = <["file.bin.part0"%string
              := Scenario.b1 ++ Scenario.b2 ++ Scenario.b1]> (fs w).
Proof.
  intros net dm w f.
  exact (pause_then_resume net f dm w Scenario.b2 [Scenario.b1] Scenario.b1
           eq_refl eq_refl eq_refl eq_refl (Nat.lt_0_succ 0)).
Defined.

(** ** The destination path is never read *)

Lemma get_file_info_output_path net path dm :
  get_file_info net (set_output_path path dm)
  = match get_file_info net dm with
    | Ok dm' => Ok (set_output_path path dm')
    | Raise e => Raise e
    end.
Proof.
  unfold get_file_info.
  destruct (net_head net) as [r|]; [|done].
  destruct (negb (response_ok r) || negb (bool_decide (is_Some (content_length r)))).
  - destruct (net_get net) as [r'|]; [|done].
    destruct (response_ok r'); [|done]. by destruct (content_length r').
  - by destruct (content_length r).
Qed.

Lemma split_ranges_output_path path dm :
  split_ranges (set_output_path path dm) = split_ranges dm.
Proof. done. Qed.

Lemma start_output_path net path dm w :
  start net (set_output_path path dm) w = with_output_path path (start net dm w).
Proof.
  unfold start. simpl file_name.
  destruct (bool_decide (file_name dm = EmptyString)); [done|].
  change (reset (set_output_path path dm)) with (set_output_path path (reset dm)).
  rewrite get_file_info_output_path.
  destruct (get_file_info net (reset dm)) as [dm'|e]; [|done].
  simpl accept_ranges. destruct (accept_ranges dm'); [|done]. simpl negb. cbv iota.
  rewrite split_ranges_output_path. by destruct (split_ranges dm').
Qed.

Lemma fetcher_step_output_path net path f dm w :
  fetcher_step net f (set_output_path path dm) w
  = let '(f', dm', w') := fetcher_step net f dm w in
    (f', set_output_path path dm', w').
Proof.
  unfold fetcher_step, chunk_failed, chunk_finished, store_status.
  destruct f as [i cb p]; simpl.
  destruct p as [first last | stream | [|[b|e] stream] | b stream
                | b stream | [|x b] stream | b stream | loaded b stream
                | stream | out];
    repeat match goal with
           | |- context [net_get_range ?n ?a ?b] => destruct (net_get_range n a b)
           | |- context [if ?c then _ else _] => destruct c
           end; done.
Qed.

Lemma finish_output_path path dm w :
  finish (set_output_path path dm) w = finish dm w.
Proof.
  unfold finish, combine_chunks, start_failed.
  by rewrite (combine_loop_reads (set_output_path path dm) dm).
Qed.

Lemma step_output_path net path a m :
  step net a (with_output_path path m) = with_output_path path (step net a m).
Proof.
  destruct a; simpl; try done.
  - destruct (fetchers m !! i) as [f|]; [|done].
    rewrite fetcher_step_output_path.
    by destruct (fetcher_step net f (manager m) (outside m)) as [[f' dm'] w'].
  - unfold coord_step, with_output_path; simpl.
    destruct (coord m) eqn:Hc; simpl;
      repeat match goal with
             | |- context [if ?c then _ else _] => destruct c
             end; try done.
    + rewrite finish_output_path. by destruct (finish (manager m) (outside m)).
    + by rewrite Hc.
Qed.

(** X19.  No method reads the destination path.  Whatever destination the
    object was built with, a run goes the same way step for step: the same
    files with the same content, the same events, the same statuses and the
    same outcome; only the stored path itself differs. *)
Theorem run_ignores_output_path net path dm w schedule :
  run net schedule (start net (set_output_path path dm) w)
  = with_output_path path (run net schedule (start net dm w)).
Proof.
  rewrite start_output_path. generalize (start net dm w).
  induction schedule as [|a schedule IH]; intros m; [done|].
  change (run net (a :: schedule) ?m0) with (run net schedule (step net a m0)).
  by rewrite step_output_path, IH.
Qed.

(** ** The counter never runs ahead of the disk *)

Lemma sum_insert {A} (g : A → nat) (l : list A) (i : nat) x y :
  l !! i = Some x →
  (sum_list_with g (<[i := y]> l) + g x = sum_list_with g l + g y)%nat.
Proof.
  revert i. induction l as [|a l IH]; intros [|i] Hx; simplify_eq/=; [lia|].
  specialize (IH i Hx). lia.
Qed.

Lemma sum_seq_same (g g' : nat → nat) (n : nat) :
  (∀ j, (j < n)%nat → g' j = g j) →
  sum_list_with g' (seq 0 n) = sum_list_with g (seq 0 n).
Proof.
  induction n as [|n IH]; intros H; [done|].
  rewrite seq_S, !sum_list_with_app. simpl.
  rewrite IH by (intros j Hj; apply H; lia). rewrite (H n) by lia. done.
Qed.

Lemma sum_seq_change (g g' : nat → nat) (k n : nat) :
  (∀ j, j ≠ k → g' j = g j) → (k < n)%nat →
  (sum_list_with g' (seq 0 n) + g k = sum_list_with g (seq 0 n) + g' k)%nat.
Proof.
  intros H. induction n as [|n IH]; intros Hk; [lia|].
  rewrite seq_S, !sum_list_with_app. simpl.
  destruct (decide (k = n)) as [-> | Hne].
  - rewrite (sum_seq_same g g' n) by (intros j Hj; apply H; lia). lia.
  - rewrite (H n) by done. specialize (IH ltac:(lia)). lia.
Qed.

(** What one step of a fetcher does to its store, to the bytes it has not
    counted yet, and to the counter. *)
Lemma fetcher_step_count net f dm w :
  let own := part_file dm (Z.of_nat (thread_index f)) in
  (match pc f with
   | FRequest _ _ | FOpen _ => default [] (fs w !! own) = []
   | _ => True
   end) →
  let '(f', dm', w') := fetcher_step net f dm w in
  thread_index f' = thread_index f ∧ file_name dm' = file_name dm ∧
  (∀ p, p ≠ own → fs w' !! p = fs w !! p) ∧
  ∃ grow : list Byte.byte,
    default [] (fs w' !! own) = default [] (fs w !! own) ++ grow ∧
    (uncounted f' ≤ length grow + uncounted f)%nat ∧
    match pc f with
    | FStore loaded b _ =>
        downloaded_total dm' = loaded + Z.of_nat (length b)
        ∧ grow = [] ∧ uncounted f' = 0%nat
    | _ => downloaded_total dm' = downloaded_total dm
    end ∧
    match pc f' with
    | FStore loaded' _ _ =>
        loaded' = downloaded_total dm ∧ downloaded_total dm' = downloaded_total dm
        ∧ (uncounted f' = length grow + uncounted f)%nat
    | FOpen _ => grow = [] ∧ default [] (fs w !! own) = []
    | FRequest _ _ => False
    | _ => True
    end.
Proof.
  intros own Hfresh.
  unfold fetcher_step, chunk_failed, chunk_finished, store_status.
  destruct f as [i cb p]; unfold uncounted; simpl in *.
  destruct p as [first last | stream | [|[b|e] stream] | b stream
                | b stream | [|x b] stream | b stream | loaded b stream
                | stream | out];
    repeat match goal with
           | |- context [net_get_range ?n ?a ?b] => destruct (net_get_range n a b)
           | |- context [if ?c then _ else _] => destruct c
           end; simpl;
    (split; [done|]); (split; [done|]);
    try (split; [by (done || (intros p Hp; by apply lookup_insert_ne))|]);
    try (exists []; rewrite ?app_nil_r; fold own; rewrite ?lookup_insert_eq;
         simpl; rewrite ?Hfresh; repeat split; (done || lia)).
  (* the write *)
  exists (x :: b). fold own. rewrite lookup_insert_eq. simpl.
  repeat split; (done || lia).
Qed.

Lemma counter_behind_ext m m' :
  file_name (manager m') = file_name (manager m) →
  downloaded_total (manager m') = downloaded_total (manager m) →
  fetchers m' = fetchers m → fs (outside m') = fs (outside m) →
  counter_behind m → counter_behind m'.
Proof.
  intros Hname Hdt Hfl Hfs.
  assert (Hw : ∀ i, written m' i = written m i).
  { intros i. unfold written, part_file. by rewrite Hname, Hfs. }
  assert (Hs : stored m' = stored m).
  { unfold stored. rewrite Hfl. apply sum_seq_same. intros j _. by rewrite Hw. }
  unfold counter_behind, pending. rewrite Hs, Hfl, Hdt.
  intros [Hc Hf]. split; [done|]. intros i f Hi.
  destruct (Hf i f Hi) as [Hidx Hpc]. split; [done|].
  destruct (pc f); try done; by rewrite Hw.
Qed.

Lemma fetcher_step_counter_behind net i m f :
  fetchers m !! i = Some f → counter_behind m →
  counter_behind (step net (RunFetcher i) m).
Proof.
  intros Hf [Hc Hall]. simpl. rewrite Hf.
  destruct (Hall i f Hf) as [Hidx Hpcf].
  pose proof (fetcher_step_count net f (manager m) (outside m)) as Hstep.
  rewrite Hidx in Hstep. fold (written m i) in Hstep.
  specialize (Hstep ltac:(by destruct (pc f))).
  destruct (fetcher_step net f (manager m) (outside m)) as [[f' dm'] w'].
  destruct Hstep as (Hidx' & Hname & Hframe & grow & Hgrow & Hgain & Hdt & Hpc').
  set (m' := mkMachine dm' w' (<[i := f']> (fetchers m)) (coord m)).
  assert (Hlt : (i < length (fetchers m))%nat) by (by eapply lookup_lt_Some).
  assert (Hwi : written m' i = written m i ++ grow).
  { unfold written, m', part_file; simpl. rewrite Hname. exact Hgrow. }
  assert (Hwj : ∀ j, j ≠ i → written m' j = written m j).
  { intros j Hj. unfold written, m', part_file; simpl. rewrite Hname.
    fold (part_file (manager m) (Z.of_nat j)). rewrite Hframe; [done|].
    intros E. apply part_file_inj in E. lia. }
  assert (Hstored : stored m' = (stored m + length grow)%nat).
  { unfold stored. simpl. rewrite length_insert.
    pose proof (sum_seq_change (λ j, length (written m j))
                  (λ j, length (written m' j)) i (length (fetchers m))) as H.
    simpl in H. rewrite Hwi, length_app in H.
    specialize (H ltac:(intros j Hj; by rewrite Hwj) Hlt). lia. }
  assert (Hpending : (pending m' + uncounted f = pending m + uncounted f')%nat).
  { unfold pending, m'; simpl. by apply sum_insert. }
  assert (Hmono : Z.of_nat (stored m) - Z.of_nat (pending m)
                  ≤ Z.of_nat (stored m') - Z.of_nat (pending m')) by lia.
  unfold counter_behind. fold m'. split.
  - change (manager m') with dm'.
    destruct (pc f) eqn:Epc; try (rewrite Hdt; lia).
    destruct Hdt as (-> & -> & Hzero).
    unfold uncounted in Hpending at 1. rewrite Epc in Hpending. simpl in Hstored. lia.
  - intros j g Hg. destruct (decide (j = i)) as [-> | Hne].
    + unfold m' in Hg; simpl in Hg.
      rewrite list_lookup_insert_eq in Hg by done. injection Hg as <-.
      split; [congruence|].
      destruct (pc f') eqn:Epc'; try done.
      * destruct Hpc' as [-> Hfresh]. by rewrite Hwi, app_nil_r.
      * destruct Hpc' as (-> & _ & Hsame). lia.
    + unfold m' in Hg; simpl in Hg. rewrite list_lookup_insert_ne in Hg by done.
      destruct (Hall j g Hg) as [Hj Hpcg]. split; [done|].
      destruct (pc g); try done; [by rewrite Hwj .. | lia].
Qed.

Lemma step_counter_behind net a m :
  counter_behind m → coordinating (coord (step net a m)) = true →
  counter_behind (step net a m).
Proof.
  intros Hm Hrun. destruct a.
  - simpl in *. destruct (fetchers m !! i) as [f|] eqn:Hf.
    + pose proof (fetcher_step_counter_behind net i m f Hf Hm) as H.
      simpl in H. by rewrite Hf in H.
    + by destruct m.
  - revert Hrun. simpl. unfold coord_step.
    destruct (coord m) eqn:Hc;
      repeat match goal with
             | |- context [if ?c then _ else _] => destruct c
             | |- context [finish ?d ?w] => destruct (finish d w)
             end; try discriminate; intros _;
      try (apply (counter_behind_ext m); try done;
           unfold notify; by destruct (status_callback (manager m))).
  - by apply (counter_behind_ext m).
  - by apply (counter_behind_ext m).
  - by apply (counter_behind_ext m).
Qed.

Lemma step_done net a m r : coord m = MDone r → coord (step net a m) = MDone r.
Proof.
  intros Hc. destruct a; simpl; try done.
  - destruct (fetchers m !! i); [|done].
    by destruct (fetcher_step net f (manager m) (outside m)) as [[? ?] ?].
  - unfold coord_step. by rewrite Hc.
Qed.

Lemma run_done net schedule : ∀ m r,
  coord m = MDone r → coord (run net schedule m) = MDone r.
Proof.
  induction schedule as [|a schedule IH]; intros m r Hc; [done|].
  apply IH. by apply step_done.
Qed.

Lemma run_counter_behind net schedule : ∀ m,
  counter_behind m → coordinating (coord (run net schedule m)) = true →
  counter_behind (run net schedule m).
Proof.
  induction schedule as [|a schedule IH]; intros m Hm Hrun; [done|].
  change (run net (a :: schedule) m) with (run net schedule (step net a m)) in *.
  apply IH; [|done]. apply step_counter_behind; [done|].
  destruct (coord (step net a m)) eqn:Hc; try done.
  by rewrite (run_done net schedule _ _ Hc) in Hrun.
Qed.

Lemma sum_list_with_zero {A} (g : A → nat) (l : list A) :
  Forall (λ x, g x = 0%nat) l → sum_list_with g l = 0%nat.
Proof. induction 1 as [|x l Hx _ IH]; simpl; [done | lia]. Qed.

Lemma start_counter_behind net dm w :
  (∀ i : nat, fs w !! part_file dm (Z.of_nat i) = None) →
  coordinating (coord (start net dm w)) = true →
  counter_behind (start net dm w).
Proof.
  intros Hfresh. unfold start.
  destruct (bool_decide (file_name dm = EmptyString)); [discriminate|].
  destruct (get_file_info net (reset dm)) as [dm'|e] eqn:Hprobe; [|discriminate].
  destruct (accept_ranges dm'); [|discriminate]. simpl negb. cbv iota.
  destruct (split_ranges dm') as [ranges|e]; [|discriminate]. intros _.
  set (m := mkMachine _ _ _ _).
  assert (Hname : file_name dm' = file_name dm).
  { clear -Hprobe. unfold get_file_info in Hprobe.
    destruct (net_head net) as [r|]; [|discriminate Hprobe].
    destruct (negb (response_ok r) || negb (bool_decide (is_Some (content_length r)))).
    - destruct (net_get net) as [r'|]; [|discriminate Hprobe].
      destruct (response_ok r'); [|discriminate Hprobe].
      destruct (content_length r'); [|discriminate Hprobe]. by injection Hprobe as <-.
    - destruct (content_length r); [|discriminate Hprobe]. by injection Hprobe as <-. }
  assert (Hdt : downloaded_total dm' = 0).
  { clear -Hprobe. unfold get_file_info in Hprobe.
    destruct (net_head net) as [r|]; [|discriminate Hprobe].
    destruct (negb (response_ok r) || negb (bool_decide (is_Some (content_length r)))).
    - destruct (net_get net) as [r'|]; [|discriminate Hprobe].
      destruct (response_ok r'); [|discriminate Hprobe].
      destruct (content_length r'); [|discriminate Hprobe]. by injection Hprobe as <-.
    - destruct (content_length r); [|discriminate Hprobe]. by injection Hprobe as <-. }
  assert (Hw : ∀ i, written m i = []).
  { intros i. unfold written, m, part_file; simpl. rewrite Hname.
    assert (E : fs (notify dm' "downloading"
                      (notify (reset dm) "starting" (emit (Print (file_name dm)) w)))
                = fs w).
    { unfold notify. by destruct (status_callback dm'), (status_callback (reset dm)). }
    rewrite E. fold (part_file dm (Z.of_nat i)). by rewrite Hfresh. }
  assert (Hstored : stored m = 0%nat).
  { unfold stored. apply sum_list_with_zero, Forall_forall. intros j _. by rewrite Hw. }
  assert (Hpending : pending m = 0%nat).
  { unfold pending. apply sum_list_with_zero, Forall_lookup_2. intros i f Hf.
    unfold m in Hf; simpl in Hf. rewrite list_lookup_imap in Hf.
    by apply fmap_Some in Hf as (r & _ & ->). }
  unfold counter_behind. rewrite Hstored, Hpending. split.
  - unfold m; simpl. lia.
  - intros i f Hf. unfold m in Hf; simpl in Hf. rewrite list_lookup_imap in Hf.
    apply fmap_Some in Hf as (r & _ & ->). simpl. split; [done | apply Hw].
Qed.

(** X20.  In a run of [start] that begins with no segment store on disk,
    as long as the coordinator has neither returned nor raised, the counter
    of downloaded bytes is never negative and never more than the bytes the
    fetchers have written to their stores, under every interleaving:
    increments can be lost, but nothing is ever counted twice or ahead of
    the write. *)
Theorem counter_never_ahead net dm w schedule :
  (∀ i : nat, fs w !! part_file dm (Z.of_nat i) = None) →
  let m := run net schedule (start net dm w) in
  coordinating (coord m) = true →
  0 ≤ downloaded_total (manager m) ≤ Z.of_nat (stored m).
Proof.
  intros Hfresh m Hrun.
  assert (Hstart : coordinating (coord (start net dm w)) = true).
  { destruct (coord (start net dm w)) eqn:Hc; try done.
    subst m. by rewrite (run_done net schedule _ _ Hc) in Hrun. }
  destruct (run_counter_behind net schedule _
              (start_counter_behind net dm w Hfresh Hstart) Hrun) as [Hc _].
  fold m in Hc. lia.
Qed.

Lemma counter_never_ahead_witness :
  let net := Scenario.server [Ok Scenario.b1] in
  let schedule :=
    Scenario.steps 0 6 ++ Scenario.steps 1 6
    ++ [RunFetcher 0; RunFetcher 1; RunFetcher 0; RunFetcher 1] in
  let m := run net schedule (start net (Scenario.manager 2) Scenario.nothing) in
  downloaded_total (manager m) = 2 ∧ stored m = 4%nat ∧
  0 ≤ downloaded_total (manager m) ≤ Z.of_nat (stored m).
Proof.
  intros net schedule m.
  split; [vm_compute; reflexivity|]. split; [vm_compute; reflexivity|].
  apply (counter_never_ahead net (Scenario.manager 2) Scenario.nothing schedule).
  - intros i. apply lookup_empty.
  - vm_compute. reflexivity.
Defined.

(** ** Requests that fail, and runs that cannot succeed *)

(** X21.  A range request that raises, or that is answered with a status
    other than 200 and 206, ends the fetcher in one step with "Thread i
    failed: " followed by the cause, its status set to [False]; its segment
    store is not created and nothing else in the world changes. *)
Theorem fetcher_request_fails net f dm w first last :
  pc f = FRequest first last →
  (thread_index f < length (thread_status dm))%nat →
  match net_get_range net first last with
  | Ok response => segment_status response ≠ 200 ∧ segment_status response ≠ 206
  | Raise _ => True
  end →
  ∃ cause,
    fetcher_step net f dm w
    = (mkFetcher (thread_index f) (chunk_callback f)
         (FDead (Died (Wrapped ("Thread " +:+ Py.str (Z.of_nat (thread_index f))
                                +:+ " failed: ") cause))),
       set_thread_status (<[thread_index f := false]> (thread_status dm)) dm, w) ∧
    match net_get_range net first last with
    | Ok response =>
        cause = Exception ("Unexpected status code "
                           +:+ Py.str (segment_status response)
                           +:+ " for thread " +:+ Py.str (Z.of_nat (thread_index f)))
    | Raise e => cause = e
    end.
Proof.
  intros Hpc Hidx Hbad. destruct f as [i cb p]; simpl in *; subst p.
  unfold fetcher_step; cbn [pc thread_index chunk_callback].
  destruct (net_get_range net first last) as [response|e].
  - destruct Hbad as [H200 H206].
    rewrite !bool_decide_eq_false_2 by done. simpl.
    unfold chunk_failed. rewrite store_status_ok by done. by eexists.
  - unfold chunk_failed. rewrite store_status_ok by done. by eexists.
Qed.

Lemma fetcher_request_fails_witness :
  let net := mkNetwork (Raise (RequestError "unused")) (Raise (RequestError "unused"))
                       (λ _ _, Ok (mkSegment 416 [])) in
  let dm := set_thread_status [false] (Scenario.manager 1) in
  fetcher_step net (mkFetcher 0 false (FRequest 0 3)) dm Scenario.nothing
  = (mkFetcher 0 false
       (FDead (Died (Wrapped "Thread 0 failed: "
                       (Exception "Unexpected status code 416 for thread 0")))),
     dm, Scenario.nothing).
Proof.
  intros net dm.
  destruct (fetcher_request_fails net (mkFetcher 0 false (FRequest 0 3)) dm
              Scenario.nothing 0 3 eq_refl (Nat.lt_0_succ 0))
    as (cause & Hstep & Hcause).
  - simpl. split; discriminate.
  - simpl in Hcause. subst cause. exact Hstep.
Defined.

(** X22.  In a run of [start] on a non-empty file name, once no fetcher is
    alive, one fetcher that did not run to its last line, because it failed
    or because it returned on the stop flag, is enough for the run to end
    with the exception "One or more threads failed to download properly.",
    with no file touched; a run stopped this way is reported as an error,
    not as stopped. *)
Theorem unsuccessful_fetcher_fails_run net dm w schedule (i : nat) f :
  file_name dm ≠ EmptyString →
  let m := run net schedule (start net dm w) in
  coord m = MAlive → existsb is_alive (fetchers m) = false →
  fetchers m !! i = Some f → pc f ≠ FDead Succeeded →
  let m' := run net [RunCoordinator; RunCoordinator; RunCoordinator] m in
  coord m' = MDone (Raise SegmentFailureError) ∧
  fs (outside m') = fs (outside m).
Proof.
  intros Hname m Hc Hdead Hf Hpc.
  destruct (run_status_mirrors net schedule _ (start_status_mirrors net dm w Hname))
    as [Hsome _].
  fold m in Hsome. destruct (Hsome i f Hf) as (_ & Hst & _).
  assert (Hfalse : false ∈ thread_status (manager m)).
  { apply list_elem_of_lookup. exists i. rewrite Hst. f_equal.
    unfold succeeded. destruct (pc f) as [| | | | | | | | |[| |]]; done. }
  cbv zeta. destruct m as [dmm wm fl c]; simpl in *. subst c.
  change (run net [RunCoordinator; RunCoordinator; RunCoordinator]
            (mkMachine dmm wm fl MAlive))
    with (coord_step (coord_step (coord_step (mkMachine dmm wm fl MAlive)))).
  rewrite (coord_step_leave_loop (mkMachine dmm wm fl MAlive)) by done.
  cbn [manager outside fetchers coord].
  rewrite (coord_step_joined (mkMachine dmm wm fl MJoin)) by done.
  cbn [manager outside fetchers coord].
  unfold coord_step; simpl. rewrite (finish_failed _ _ Hfalse). simpl.
  by rewrite fs_start_failed.
Qed.

Lemma unsuccessful_fetcher_fails_run_witness :
  let net := Scenario.server [Ok Scenario.b1; Ok Scenario.b2] in
  let schedule := Scenario.steps 0 3 ++ [SetStop; RunFetcher 0] in
  let m := run net schedule (start net (Scenario.manager 1) Scenario.nothing) in
  let m' := run net [RunCoordinator; RunCoordinator; RunCoordinator] m in
  (pc <$> fetchers m) = [FDead Returned] ∧ stop_event (manager m) = true ∧
  coord m' = MDone (Raise SegmentFailureError) ∧
  fs (outside m') = fs (outside m).
Proof.
  intros net schedule m m'.
  split; [vm_compute; reflexivity|]. split; [vm_compute; reflexivity|].
  apply (unsuccessful_fetcher_fails_run net (Scenario.manager 1) Scenario.nothing
           schedule 0 (mkFetcher 0 false (FDead Returned))).
  - discriminate.
  - vm_compute. reflexivity.
  - vm_compute. reflexivity.
  - vm_compute. reflexivity.
  - discriminate.
Defined.
